(** * The timeline engine of the profiler (OrbitGl/TimeGraph.cpp)

    A shallow embedding of [TimeGraph]: the capture extent, the visible
    window, the track registry, the selection and the iterator overlay,
    with the operations that mutate them.

    - 64-bit ticks are [Z] with the wrap-around of [uint64_t] written out.
    - [double] and [float] are IEEE 754 binary64 and binary32 values, taken
      from the Standard Library's executable specification ([spec_float],
      round to nearest even), so every operation below can be evaluated.
    - the registries are finite maps; a pointer to a track is the
      identity under which the registry owns it ([TrackId]).
    - the application singleton ([GOrbitApp]) and the collaborators reached
      through it are passed explicitly as an [App] record. *)

From Stdlib Require Import ZArith Floats Lia Ascii String Sorted Permutation.
From stdpp Require Import gmap strings list sorting.

Open Scope Z_scope.

(** ** Machine integers *)

Definition kUint64Max : Z := 2 ^ 64 - 1.
Definition wrap64 (z : Z) : Z := z mod 2 ^ 64.
Definition wrap32 (z : Z) : Z := z mod 2 ^ 32.

(** ** IEEE 754 numbers *)

Definition double := spec_float.
Definition float32 := spec_float.

Module D.
Definition prec : Z := 53.
Definition emax : Z := 1024.
Definition add : double -> double -> double := SFadd prec emax.
Definition sub : double -> double -> double := SFsub prec emax.
Definition mul : double -> double -> double := SFmul prec emax.
Definition div : double -> double -> double := SFdiv prec emax.
Definition ltb : double -> double -> bool := SFltb.
Definition eqb : double -> double -> bool := SFeqb.
(** [static_cast<double>(z)] for an integer [z]. *)
Definition of_Z (z : Z) : double := binary_normalize prec emax z 0 false.
Definition zero : double := S754_zero false.
Definition one : double := of_Z 1.
(** The literals of the source, each the binary64 value nearest to the
    decimal written there. *)
Definition lit_0_001 : double := div (of_Z 1) (of_Z 1000).
Definition lit_0_1 : double := div (of_Z 1) (of_Z 10).
Definition lit_1000 : double := of_Z 1000.
(** [std::max(a, b)] is [(a < b) ? b : a]; [std::min(a, b)] is
    [(b < a) ? b : a]. *)
Definition max (a b : double) : double := if ltb a b then b else a.
Definition min (a b : double) : double := if ltb b a then b else a.
(** [static_cast<uint64_t>(x)]: truncation toward zero; the conversion is
    undefined (here [None]) when the truncated value is not a [uint64_t]. *)
Definition to_uint64 (x : double) : option Z :=
  match x with
  | S754_zero _ => Some 0
  | S754_finite s m e =>
      let v := match e with
               | Zneg p => Z.shiftr (Zpos m) (Zpos p)
               | _ => Z.shiftl (Zpos m) e
               end in
      if s then (if v =? 0 then Some 0 else None)
      else if v <=? kUint64Max then Some v else None
  | _ => None
  end.
End D.

Module F.
Definition prec : Z := 24.
Definition emax : Z := 128.
Definition add : float32 -> float32 -> float32 := SFadd prec emax.
Definition sub : float32 -> float32 -> float32 := SFsub prec emax.
Definition mul : float32 -> float32 -> float32 := SFmul prec emax.
Definition div : float32 -> float32 -> float32 := SFdiv prec emax.
Definition ltb : float32 -> float32 -> bool := SFltb.
Definition eqb : float32 -> float32 -> bool := SFeqb.
Definition of_Z (z : Z) : float32 := binary_normalize prec emax z 0 false.
Definition zero : float32 := S754_zero false.
(** [static_cast<double>(f)]: exact, the value written with a binary64
    mantissa. *)
Definition to_double (x : float32) : double :=
  match x with
  | S754_finite s m e =>
      binary_normalize D.prec D.emax (cond_Zopp s (Zpos m)) e s
  | _ => x
  end.
(** [static_cast<float>(d)]: rounding to binary32. *)
Definition of_double (x : double) : float32 :=
  match x with
  | S754_finite s m e =>
      binary_normalize prec emax (cond_Zopp s (Zpos m)) e s
  | _ => x
  end.
End F.

(** Modelled from the spec: [TicksToMicroseconds] (OrbitBase/Profiling.h is
    not among the sources). One tick is one nanosecond; the elapsed ticks
    [end - start], an unsigned 64-bit difference, are returned in
    microseconds as a double. *)
Definition TicksToMicroseconds (a_Start a_End : Z) : double :=
  D.mul (D.of_Z (wrap64 (a_End - a_Start))) D.lit_0_001.

(** Modelled from the spec: [TicksToDuration], the elapsed ticks as a
    nanosecond count. *)
Definition TicksToDuration (a_Start a_End : Z) : Z := wrap64 (a_End - a_Start).


(** ** Strings: the two helpers of the thread-name filter *)

(** [absl::StrSplit(s, ' ')]: the pieces between the separators, empty pieces
    kept. *)
Fixpoint StrSplit (s : string) (sep : ascii) : list string :=
  match s with
  | EmptyString => [EmptyString]
  | String c rest =>
      if Ascii.eqb c sep then EmptyString :: StrSplit rest sep
      else match StrSplit rest sep with
           | [] => [String c EmptyString]
           | piece :: more => String c piece :: more
           end
  end.

(** [absl::StrContains(haystack, needle)]. *)
Fixpoint StrContains (haystack needle : string) : bool :=
  String.prefix needle haystack
  || match haystack with
     | EmptyString => false
     | String _ rest => StrContains rest needle
     end.

(** ** Data model *)

(** The kinds of timer record. The engine inspects three of them
    ([kGpuActivity], [kIntrospection], [kCoreActivity]); every other kind is
    routed like a function span. *)
Inductive TimerType :=
  | kFunctionSpan | kCoreActivity | kGpuActivity
  | kAsyncSpan | kIntrospection | kValueSample.

Record TimerInfo := mkTimerInfo {
  ti_start : Z;
  ti_end : Z;
  ti_thread_id : Z;
  ti_depth : Z;
  ti_type : TimerType;
  ti_processor : Z;
  ti_timeline_hash : Z;
  ti_function_address : Z
}.

Inductive OrbitType :=
  | kNone | kOrbitTrackValue | kOrbitTimerStartAsync | kOrbitTimerStopAsync
  | kOrbitOther.

Record FunctionInfo := mkFunctionInfo {
  fi_name : string;
  fi_orbit_type : OrbitType
}.

Record CallstackEvent := mkCallstackEvent {
  ce_time : Z;
  ce_callstack_hash : Z;
  ce_thread_id : Z
}.

Inductive ApiEventType :=
  | kString | kTrackInt | kTrackInt64 | kTrackUint | kTrackUint64
  | kTrackFloat | kTrackDouble | kApiOther.

Record ApiEvent := mkApiEvent {
  ev_type : ApiEventType;
  ev_name : string;
  ev_value : Z
}.

Definition Color : Type := Z * Z * Z * Z.

Definition colors : list Color :=
  [ (231, 68, 53, 255); (43, 145, 175, 255); (185, 117, 181, 255);
    (87, 166, 74, 255); (215, 171, 105, 255); (248, 101, 22, 255) ].

(** [TimeGraph::GetColor(uint32_t)]. *)
Definition GetColor (id : Z) : Color :=
  nth (Z.to_nat (id mod Z.of_nat (length colors))) colors (0, 0, 0, 0).

(** [TimeGraph::GetThreadColor]: the thread id converted to [uint32_t]. *)
Definition GetThreadColor (tid : Z) : Color := GetColor (wrap32 tid).

Definition kGreenIntrospection : Color := (87, 166, 74, 255).

(** The label of a track: plain text, or the text the GPU helper derives
    from a timeline name. *)
Inductive Label :=
  | PlainLabel (s : string)
  | GpuTimelineLabel (timeline : string).

(** A decoded value sample of a graph track: the encoding, the raw 64-bit
    payload, and the tick it was taken at. *)
Definition GraphSample : Type := ApiEventType * Z * Z.

(** Modelled from the spec: a track (Track.h and the files of its five
    variants are not among the sources). A track has a name, a label and a
    colour (and a thread track the colour of its event lane), owns the
    records delivered to it in arrival order, and, for a graph track, the
    scalar samples. *)
Record Track := mkTrack {
  name_ : string;
  label_ : Label;
  color_ : option Color;
  track_color_ : option Color;
  timers_ : list TimerInfo;
  values_ : list GraphSample
}.

Definition new_track : Track := mkTrack "" (PlainLabel "") None None [] [].

Definition SetName (n : string) (t : Track) : Track :=
  mkTrack n (label_ t) (color_ t) (track_color_ t) (timers_ t) (values_ t).
Definition SetLabel (l : Label) (t : Track) : Track :=
  mkTrack (name_ t) l (color_ t) (track_color_ t) (timers_ t) (values_ t).
Definition SetColor (c : Color) (t : Track) : Track :=
  mkTrack (name_ t) (label_ t) (Some c) (track_color_ t) (timers_ t) (values_ t).
Definition SetTrackColor (c : Color) (t : Track) : Track :=
  mkTrack (name_ t) (label_ t) (color_ t) (Some c) (timers_ t) (values_ t).

(** Modelled from the spec: [Track::OnTimer] appends the record to the
    track's chain. *)
Definition OnTimer (r : TimerInfo) (t : Track) : Track :=
  mkTrack (name_ t) (label_ t) (color_ t) (track_color_ t) (timers_ t ++ [r])
    (values_ t).

(** Modelled from the spec: [GraphTrack::AddValue]. *)
Definition AddValue (s : GraphSample) (t : Track) : Track :=
  mkTrack (name_ t) (label_ t) (color_ t) (track_color_ t) (timers_ t)
    (values_ t ++ [s]).

(** Modelled from the spec: the event count, the emptiness test and the
    smallest start tick of a track. *)
Definition GetNumTimers (t : Track) : Z := Z.of_nat (length (timers_ t)).

Definition IsEmpty (t : Track) : bool :=
  match timers_ t with [] => true | _ => false end.

Definition GetMinTime (t : Track) : Z :=
  foldl (fun acc r => Z.min acc (ti_start r)) kUint64Max (timers_ t).

(** The identity under which the registry owns a track; the draw list and
    the list of all tracks hold identities, not copies. *)
Inductive TrackId :=
  | SchedulerId
  | ThreadId (tid : Z)
  | GpuId (timeline_hash : Z)
  | GraphId (name : string)
  | AsyncId (name : string).

(** Modelled from the spec: the synthetic thread id of the all-threads
    process track ([SamplingProfiler::kAllThreadsFakeTid]). *)
Definition kAllThreadsFakeTid : Z := -1.

(** The callstack/event index of the capture, as the engine queries it. *)
Record CallstackData := mkCallstackData {
  GetCallstackEventsCount : Z;
  GetCallstackEventsCountsPerTid : list (Z * Z);
  cs_min_time : Z;
  cs_max_time : Z;
  GetCallstackEventsInTimeRange : Z -> Z -> list CallstackEvent;
  GetCallstackEventsOfTidInTimeRange : Z -> Z -> Z -> list CallstackEvent
}.

(** What the engine reaches through [GOrbitApp] and its collaborators during
    one call: the capture data, whether a capture is running, the stopwatch
    clock, the decoder of manual-instrumentation events, and the listener
    calls the instrumentation manager makes for an async timer. *)
Record App := mkApp {
  GetCallstackData : CallstackData;
  IsCapturing : bool;
  now_millis : double;
  ApiEventFromTimerInfo : TimerInfo -> ApiEvent;
  AsyncTimerListenerCalls : TimerInfo -> list (string * TimerInfo)
}.

(** ** Engine state *)

Record TimeGraph := mkTimeGraph {
  capture_min_timestamp_ : Z;
  capture_max_timestamp_ : Z;
  min_time_us_ : double;
  max_time_us_ : double;
  ref_time_us_ : double;
  time_window_us_ : double;
  zoom_value_ : float32;
  mouse_ratio_ : double;
  world_start_x_ : float32;
  world_width_ : float32;
  thread_count_map_ : gmap Z Z;
  event_count_ : gmap Z Z;
  tracks_ : list TrackId;
  scheduler_track_ : option Track;
  thread_tracks_ : gmap Z Track;
  gpu_tracks_ : gmap Z Track;
  graph_tracks_ : gmap string Track;
  async_tracks_ : gmap string Track;
  cores_seen_ : gset Z;
  sorted_tracks_ : list TrackId;
  thread_filter_ : string;
  selected_callstack_events_per_thread_ : gmap Z (list CallstackEvent);
  iterator_text_boxes_ : gmap Z TimerInfo;
  iterator_functions_ : gmap Z FunctionInfo;
  needs_update_primitives_ : bool;
  needs_redraw_ : bool;
  last_thread_reorder_ : double;
  string_manager_ : gmap Z string
}.

(** Field updates ([g.f_ = v] in the source). *)
Definition set_capture_min_timestamp_ (v : Z) (g : TimeGraph) : TimeGraph :=
  mkTimeGraph v (capture_max_timestamp_ g) (min_time_us_ g) (max_time_us_ g)
    (ref_time_us_ g) (time_window_us_ g) (zoom_value_ g) (mouse_ratio_ g)
    (world_start_x_ g) (world_width_ g) (thread_count_map_ g) (event_count_
    g) (tracks_ g) (scheduler_track_ g) (thread_tracks_ g) (gpu_tracks_ g)
    (graph_tracks_ g) (async_tracks_ g) (cores_seen_ g) (sorted_tracks_ g)
    (thread_filter_ g) (selected_callstack_events_per_thread_ g)
    (iterator_text_boxes_ g) (iterator_functions_ g)
    (needs_update_primitives_ g) (needs_redraw_ g) (last_thread_reorder_ g)
    (string_manager_ g).
Definition set_capture_max_timestamp_ (v : Z) (g : TimeGraph) : TimeGraph :=
  mkTimeGraph (capture_min_timestamp_ g) v (min_time_us_ g) (max_time_us_ g)
    (ref_time_us_ g) (time_window_us_ g) (zoom_value_ g) (mouse_ratio_ g)
    (world_start_x_ g) (world_width_ g) (thread_count_map_ g) (event_count_
    g) (tracks_ g) (scheduler_track_ g) (thread_tracks_ g) (gpu_tracks_ g)
    (graph_tracks_ g) (async_tracks_ g) (cores_seen_ g) (sorted_tracks_ g)
    (thread_filter_ g) (selected_callstack_events_per_thread_ g)
    (iterator_text_boxes_ g) (iterator_functions_ g)
    (needs_update_primitives_ g) (needs_redraw_ g) (last_thread_reorder_ g)
    (string_manager_ g).
Definition set_min_time_us_ (v : double) (g : TimeGraph) : TimeGraph :=
  mkTimeGraph (capture_min_timestamp_ g) (capture_max_timestamp_ g) v
    (max_time_us_ g) (ref_time_us_ g) (time_window_us_ g) (zoom_value_ g)
    (mouse_ratio_ g) (world_start_x_ g) (world_width_ g) (thread_count_map_
    g) (event_count_ g) (tracks_ g) (scheduler_track_ g) (thread_tracks_ g)
    (gpu_tracks_ g) (graph_tracks_ g) (async_tracks_ g) (cores_seen_ g)
    (sorted_tracks_ g) (thread_filter_ g)
    (selected_callstack_events_per_thread_ g) (iterator_text_boxes_ g)
    (iterator_functions_ g) (needs_update_primitives_ g) (needs_redraw_ g)
    (last_thread_reorder_ g) (string_manager_ g).
Definition set_max_time_us_ (v : double) (g : TimeGraph) : TimeGraph :=
  mkTimeGraph (capture_min_timestamp_ g) (capture_max_timestamp_ g)
    (min_time_us_ g) v (ref_time_us_ g) (time_window_us_ g) (zoom_value_ g)
    (mouse_ratio_ g) (world_start_x_ g) (world_width_ g) (thread_count_map_
    g) (event_count_ g) (tracks_ g) (scheduler_track_ g) (thread_tracks_ g)
    (gpu_tracks_ g) (graph_tracks_ g) (async_tracks_ g) (cores_seen_ g)
    (sorted_tracks_ g) (thread_filter_ g)
    (selected_callstack_events_per_thread_ g) (iterator_text_boxes_ g)
    (iterator_functions_ g) (needs_update_primitives_ g) (needs_redraw_ g)
    (last_thread_reorder_ g) (string_manager_ g).
Definition set_ref_time_us_ (v : double) (g : TimeGraph) : TimeGraph :=
  mkTimeGraph (capture_min_timestamp_ g) (capture_max_timestamp_ g)
    (min_time_us_ g) (max_time_us_ g) v (time_window_us_ g) (zoom_value_ g)
    (mouse_ratio_ g) (world_start_x_ g) (world_width_ g) (thread_count_map_
    g) (event_count_ g) (tracks_ g) (scheduler_track_ g) (thread_tracks_ g)
    (gpu_tracks_ g) (graph_tracks_ g) (async_tracks_ g) (cores_seen_ g)
    (sorted_tracks_ g) (thread_filter_ g)
    (selected_callstack_events_per_thread_ g) (iterator_text_boxes_ g)
    (iterator_functions_ g) (needs_update_primitives_ g) (needs_redraw_ g)
    (last_thread_reorder_ g) (string_manager_ g).
Definition set_time_window_us_ (v : double) (g : TimeGraph) : TimeGraph :=
  mkTimeGraph (capture_min_timestamp_ g) (capture_max_timestamp_ g)
    (min_time_us_ g) (max_time_us_ g) (ref_time_us_ g) v (zoom_value_ g)
    (mouse_ratio_ g) (world_start_x_ g) (world_width_ g) (thread_count_map_
    g) (event_count_ g) (tracks_ g) (scheduler_track_ g) (thread_tracks_ g)
    (gpu_tracks_ g) (graph_tracks_ g) (async_tracks_ g) (cores_seen_ g)
    (sorted_tracks_ g) (thread_filter_ g)
    (selected_callstack_events_per_thread_ g) (iterator_text_boxes_ g)
    (iterator_functions_ g) (needs_update_primitives_ g) (needs_redraw_ g)
    (last_thread_reorder_ g) (string_manager_ g).
Definition set_zoom_value_ (v : float32) (g : TimeGraph) : TimeGraph :=
  mkTimeGraph (capture_min_timestamp_ g) (capture_max_timestamp_ g)
    (min_time_us_ g) (max_time_us_ g) (ref_time_us_ g) (time_window_us_ g) v
    (mouse_ratio_ g) (world_start_x_ g) (world_width_ g) (thread_count_map_
    g) (event_count_ g) (tracks_ g) (scheduler_track_ g) (thread_tracks_ g)
    (gpu_tracks_ g) (graph_tracks_ g) (async_tracks_ g) (cores_seen_ g)
    (sorted_tracks_ g) (thread_filter_ g)
    (selected_callstack_events_per_thread_ g) (iterator_text_boxes_ g)
    (iterator_functions_ g) (needs_update_primitives_ g) (needs_redraw_ g)
    (last_thread_reorder_ g) (string_manager_ g).
Definition set_mouse_ratio_ (v : double) (g : TimeGraph) : TimeGraph :=
  mkTimeGraph (capture_min_timestamp_ g) (capture_max_timestamp_ g)
    (min_time_us_ g) (max_time_us_ g) (ref_time_us_ g) (time_window_us_ g)
    (zoom_value_ g) v (world_start_x_ g) (world_width_ g) (thread_count_map_
    g) (event_count_ g) (tracks_ g) (scheduler_track_ g) (thread_tracks_ g)
    (gpu_tracks_ g) (graph_tracks_ g) (async_tracks_ g) (cores_seen_ g)
    (sorted_tracks_ g) (thread_filter_ g)
    (selected_callstack_events_per_thread_ g) (iterator_text_boxes_ g)
    (iterator_functions_ g) (needs_update_primitives_ g) (needs_redraw_ g)
    (last_thread_reorder_ g) (string_manager_ g).
Definition set_thread_count_map_ (v : gmap Z Z) (g : TimeGraph) : TimeGraph :=
  mkTimeGraph (capture_min_timestamp_ g) (capture_max_timestamp_ g)
    (min_time_us_ g) (max_time_us_ g) (ref_time_us_ g) (time_window_us_ g)
    (zoom_value_ g) (mouse_ratio_ g) (world_start_x_ g) (world_width_ g) v
    (event_count_ g) (tracks_ g) (scheduler_track_ g) (thread_tracks_ g)
    (gpu_tracks_ g) (graph_tracks_ g) (async_tracks_ g) (cores_seen_ g)
    (sorted_tracks_ g) (thread_filter_ g)
    (selected_callstack_events_per_thread_ g) (iterator_text_boxes_ g)
    (iterator_functions_ g) (needs_update_primitives_ g) (needs_redraw_ g)
    (last_thread_reorder_ g) (string_manager_ g).
Definition set_event_count_ (v : gmap Z Z) (g : TimeGraph) : TimeGraph :=
  mkTimeGraph (capture_min_timestamp_ g) (capture_max_timestamp_ g)
    (min_time_us_ g) (max_time_us_ g) (ref_time_us_ g) (time_window_us_ g)
    (zoom_value_ g) (mouse_ratio_ g) (world_start_x_ g) (world_width_ g)
    (thread_count_map_ g) v (tracks_ g) (scheduler_track_ g) (thread_tracks_
    g) (gpu_tracks_ g) (graph_tracks_ g) (async_tracks_ g) (cores_seen_ g)
    (sorted_tracks_ g) (thread_filter_ g)
    (selected_callstack_events_per_thread_ g) (iterator_text_boxes_ g)
    (iterator_functions_ g) (needs_update_primitives_ g) (needs_redraw_ g)
    (last_thread_reorder_ g) (string_manager_ g).
Definition set_tracks_ (v : list TrackId) (g : TimeGraph) : TimeGraph :=
  mkTimeGraph (capture_min_timestamp_ g) (capture_max_timestamp_ g)
    (min_time_us_ g) (max_time_us_ g) (ref_time_us_ g) (time_window_us_ g)
    (zoom_value_ g) (mouse_ratio_ g) (world_start_x_ g) (world_width_ g)
    (thread_count_map_ g) (event_count_ g) v (scheduler_track_ g)
    (thread_tracks_ g) (gpu_tracks_ g) (graph_tracks_ g) (async_tracks_ g)
    (cores_seen_ g) (sorted_tracks_ g) (thread_filter_ g)
    (selected_callstack_events_per_thread_ g) (iterator_text_boxes_ g)
    (iterator_functions_ g) (needs_update_primitives_ g) (needs_redraw_ g)
    (last_thread_reorder_ g) (string_manager_ g).
Definition set_scheduler_track_ (v : option Track) (g : TimeGraph) : TimeGraph :=
  mkTimeGraph (capture_min_timestamp_ g) (capture_max_timestamp_ g)
    (min_time_us_ g) (max_time_us_ g) (ref_time_us_ g) (time_window_us_ g)
    (zoom_value_ g) (mouse_ratio_ g) (world_start_x_ g) (world_width_ g)
    (thread_count_map_ g) (event_count_ g) (tracks_ g) v (thread_tracks_ g)
    (gpu_tracks_ g) (graph_tracks_ g) (async_tracks_ g) (cores_seen_ g)
    (sorted_tracks_ g) (thread_filter_ g)
    (selected_callstack_events_per_thread_ g) (iterator_text_boxes_ g)
    (iterator_functions_ g) (needs_update_primitives_ g) (needs_redraw_ g)
    (last_thread_reorder_ g) (string_manager_ g).
Definition set_thread_tracks_ (v : gmap Z Track) (g : TimeGraph) : TimeGraph :=
  mkTimeGraph (capture_min_timestamp_ g) (capture_max_timestamp_ g)
    (min_time_us_ g) (max_time_us_ g) (ref_time_us_ g) (time_window_us_ g)
    (zoom_value_ g) (mouse_ratio_ g) (world_start_x_ g) (world_width_ g)
    (thread_count_map_ g) (event_count_ g) (tracks_ g) (scheduler_track_ g)
    v (gpu_tracks_ g) (graph_tracks_ g) (async_tracks_ g) (cores_seen_ g)
    (sorted_tracks_ g) (thread_filter_ g)
    (selected_callstack_events_per_thread_ g) (iterator_text_boxes_ g)
    (iterator_functions_ g) (needs_update_primitives_ g) (needs_redraw_ g)
    (last_thread_reorder_ g) (string_manager_ g).
Definition set_gpu_tracks_ (v : gmap Z Track) (g : TimeGraph) : TimeGraph :=
  mkTimeGraph (capture_min_timestamp_ g) (capture_max_timestamp_ g)
    (min_time_us_ g) (max_time_us_ g) (ref_time_us_ g) (time_window_us_ g)
    (zoom_value_ g) (mouse_ratio_ g) (world_start_x_ g) (world_width_ g)
    (thread_count_map_ g) (event_count_ g) (tracks_ g) (scheduler_track_ g)
    (thread_tracks_ g) v (graph_tracks_ g) (async_tracks_ g) (cores_seen_ g)
    (sorted_tracks_ g) (thread_filter_ g)
    (selected_callstack_events_per_thread_ g) (iterator_text_boxes_ g)
    (iterator_functions_ g) (needs_update_primitives_ g) (needs_redraw_ g)
    (last_thread_reorder_ g) (string_manager_ g).
Definition set_graph_tracks_ (v : gmap string Track) (g : TimeGraph) : TimeGraph :=
  mkTimeGraph (capture_min_timestamp_ g) (capture_max_timestamp_ g)
    (min_time_us_ g) (max_time_us_ g) (ref_time_us_ g) (time_window_us_ g)
    (zoom_value_ g) (mouse_ratio_ g) (world_start_x_ g) (world_width_ g)
    (thread_count_map_ g) (event_count_ g) (tracks_ g) (scheduler_track_ g)
    (thread_tracks_ g) (gpu_tracks_ g) v (async_tracks_ g) (cores_seen_ g)
    (sorted_tracks_ g) (thread_filter_ g)
    (selected_callstack_events_per_thread_ g) (iterator_text_boxes_ g)
    (iterator_functions_ g) (needs_update_primitives_ g) (needs_redraw_ g)
    (last_thread_reorder_ g) (string_manager_ g).
Definition set_async_tracks_ (v : gmap string Track) (g : TimeGraph) : TimeGraph :=
  mkTimeGraph (capture_min_timestamp_ g) (capture_max_timestamp_ g)
    (min_time_us_ g) (max_time_us_ g) (ref_time_us_ g) (time_window_us_ g)
    (zoom_value_ g) (mouse_ratio_ g) (world_start_x_ g) (world_width_ g)
    (thread_count_map_ g) (event_count_ g) (tracks_ g) (scheduler_track_ g)
    (thread_tracks_ g) (gpu_tracks_ g) (graph_tracks_ g) v (cores_seen_ g)
    (sorted_tracks_ g) (thread_filter_ g)
    (selected_callstack_events_per_thread_ g) (iterator_text_boxes_ g)
    (iterator_functions_ g) (needs_update_primitives_ g) (needs_redraw_ g)
    (last_thread_reorder_ g) (string_manager_ g).
Definition set_cores_seen_ (v : gset Z) (g : TimeGraph) : TimeGraph :=
  mkTimeGraph (capture_min_timestamp_ g) (capture_max_timestamp_ g)
    (min_time_us_ g) (max_time_us_ g) (ref_time_us_ g) (time_window_us_ g)
    (zoom_value_ g) (mouse_ratio_ g) (world_start_x_ g) (world_width_ g)
    (thread_count_map_ g) (event_count_ g) (tracks_ g) (scheduler_track_ g)
    (thread_tracks_ g) (gpu_tracks_ g) (graph_tracks_ g) (async_tracks_ g) v
    (sorted_tracks_ g) (thread_filter_ g)
    (selected_callstack_events_per_thread_ g) (iterator_text_boxes_ g)
    (iterator_functions_ g) (needs_update_primitives_ g) (needs_redraw_ g)
    (last_thread_reorder_ g) (string_manager_ g).
Definition set_sorted_tracks_ (v : list TrackId) (g : TimeGraph) : TimeGraph :=
  mkTimeGraph (capture_min_timestamp_ g) (capture_max_timestamp_ g)
    (min_time_us_ g) (max_time_us_ g) (ref_time_us_ g) (time_window_us_ g)
    (zoom_value_ g) (mouse_ratio_ g) (world_start_x_ g) (world_width_ g)
    (thread_count_map_ g) (event_count_ g) (tracks_ g) (scheduler_track_ g)
    (thread_tracks_ g) (gpu_tracks_ g) (graph_tracks_ g) (async_tracks_ g)
    (cores_seen_ g) v (thread_filter_ g)
    (selected_callstack_events_per_thread_ g) (iterator_text_boxes_ g)
    (iterator_functions_ g) (needs_update_primitives_ g) (needs_redraw_ g)
    (last_thread_reorder_ g) (string_manager_ g).
Definition set_thread_filter_ (v : string) (g : TimeGraph) : TimeGraph :=
  mkTimeGraph (capture_min_timestamp_ g) (capture_max_timestamp_ g)
    (min_time_us_ g) (max_time_us_ g) (ref_time_us_ g) (time_window_us_ g)
    (zoom_value_ g) (mouse_ratio_ g) (world_start_x_ g) (world_width_ g)
    (thread_count_map_ g) (event_count_ g) (tracks_ g) (scheduler_track_ g)
    (thread_tracks_ g) (gpu_tracks_ g) (graph_tracks_ g) (async_tracks_ g)
    (cores_seen_ g) (sorted_tracks_ g) v
    (selected_callstack_events_per_thread_ g) (iterator_text_boxes_ g)
    (iterator_functions_ g) (needs_update_primitives_ g) (needs_redraw_ g)
    (last_thread_reorder_ g) (string_manager_ g).
Definition set_selected_callstack_events_per_thread_ (v : gmap Z (list CallstackEvent)) (g : TimeGraph) : TimeGraph :=
  mkTimeGraph (capture_min_timestamp_ g) (capture_max_timestamp_ g)
    (min_time_us_ g) (max_time_us_ g) (ref_time_us_ g) (time_window_us_ g)
    (zoom_value_ g) (mouse_ratio_ g) (world_start_x_ g) (world_width_ g)
    (thread_count_map_ g) (event_count_ g) (tracks_ g) (scheduler_track_ g)
    (thread_tracks_ g) (gpu_tracks_ g) (graph_tracks_ g) (async_tracks_ g)
    (cores_seen_ g) (sorted_tracks_ g) (thread_filter_ g) v
    (iterator_text_boxes_ g) (iterator_functions_ g)
    (needs_update_primitives_ g) (needs_redraw_ g) (last_thread_reorder_ g)
    (string_manager_ g).
Definition set_iterator_text_boxes_ (v : gmap Z TimerInfo) (g : TimeGraph) : TimeGraph :=
  mkTimeGraph (capture_min_timestamp_ g) (capture_max_timestamp_ g)
    (min_time_us_ g) (max_time_us_ g) (ref_time_us_ g) (time_window_us_ g)
    (zoom_value_ g) (mouse_ratio_ g) (world_start_x_ g) (world_width_ g)
    (thread_count_map_ g) (event_count_ g) (tracks_ g) (scheduler_track_ g)
    (thread_tracks_ g) (gpu_tracks_ g) (graph_tracks_ g) (async_tracks_ g)
    (cores_seen_ g) (sorted_tracks_ g) (thread_filter_ g)
    (selected_callstack_events_per_thread_ g) v (iterator_functions_ g)
    (needs_update_primitives_ g) (needs_redraw_ g) (last_thread_reorder_ g)
    (string_manager_ g).
Definition set_iterator_functions_ (v : gmap Z FunctionInfo) (g : TimeGraph) : TimeGraph :=
  mkTimeGraph (capture_min_timestamp_ g) (capture_max_timestamp_ g)
    (min_time_us_ g) (max_time_us_ g) (ref_time_us_ g) (time_window_us_ g)
    (zoom_value_ g) (mouse_ratio_ g) (world_start_x_ g) (world_width_ g)
    (thread_count_map_ g) (event_count_ g) (tracks_ g) (scheduler_track_ g)
    (thread_tracks_ g) (gpu_tracks_ g) (graph_tracks_ g) (async_tracks_ g)
    (cores_seen_ g) (sorted_tracks_ g) (thread_filter_ g)
    (selected_callstack_events_per_thread_ g) (iterator_text_boxes_ g) v
    (needs_update_primitives_ g) (needs_redraw_ g) (last_thread_reorder_ g)
    (string_manager_ g).
Definition set_needs_update_primitives_ (v : bool) (g : TimeGraph) : TimeGraph :=
  mkTimeGraph (capture_min_timestamp_ g) (capture_max_timestamp_ g)
    (min_time_us_ g) (max_time_us_ g) (ref_time_us_ g) (time_window_us_ g)
    (zoom_value_ g) (mouse_ratio_ g) (world_start_x_ g) (world_width_ g)
    (thread_count_map_ g) (event_count_ g) (tracks_ g) (scheduler_track_ g)
    (thread_tracks_ g) (gpu_tracks_ g) (graph_tracks_ g) (async_tracks_ g)
    (cores_seen_ g) (sorted_tracks_ g) (thread_filter_ g)
    (selected_callstack_events_per_thread_ g) (iterator_text_boxes_ g)
    (iterator_functions_ g) v (needs_redraw_ g) (last_thread_reorder_ g)
    (string_manager_ g).
Definition set_needs_redraw_ (v : bool) (g : TimeGraph) : TimeGraph :=
  mkTimeGraph (capture_min_timestamp_ g) (capture_max_timestamp_ g)
    (min_time_us_ g) (max_time_us_ g) (ref_time_us_ g) (time_window_us_ g)
    (zoom_value_ g) (mouse_ratio_ g) (world_start_x_ g) (world_width_ g)
    (thread_count_map_ g) (event_count_ g) (tracks_ g) (scheduler_track_ g)
    (thread_tracks_ g) (gpu_tracks_ g) (graph_tracks_ g) (async_tracks_ g)
    (cores_seen_ g) (sorted_tracks_ g) (thread_filter_ g)
    (selected_callstack_events_per_thread_ g) (iterator_text_boxes_ g)
    (iterator_functions_ g) (needs_update_primitives_ g) v
    (last_thread_reorder_ g) (string_manager_ g).
Definition set_last_thread_reorder_ (v : double) (g : TimeGraph) : TimeGraph :=
  mkTimeGraph (capture_min_timestamp_ g) (capture_max_timestamp_ g)
    (min_time_us_ g) (max_time_us_ g) (ref_time_us_ g) (time_window_us_ g)
    (zoom_value_ g) (mouse_ratio_ g) (world_start_x_ g) (world_width_ g)
    (thread_count_map_ g) (event_count_ g) (tracks_ g) (scheduler_track_ g)
    (thread_tracks_ g) (gpu_tracks_ g) (graph_tracks_ g) (async_tracks_ g)
    (cores_seen_ g) (sorted_tracks_ g) (thread_filter_ g)
    (selected_callstack_events_per_thread_ g) (iterator_text_boxes_ g)
    (iterator_functions_ g) (needs_update_primitives_ g) (needs_redraw_ g) v
    (string_manager_ g).

(** ** The track registry *)

Definition NeedsUpdate (g : TimeGraph) : TimeGraph :=
  set_needs_redraw_ true (set_needs_update_primitives_ true g).

(** Dereferencing a track pointer. *)
Definition get_track (g : TimeGraph) (id : TrackId) : option Track :=
  match id with
  | SchedulerId => scheduler_track_ g
  | ThreadId tid => thread_tracks_ g !! tid
  | GpuId h => gpu_tracks_ g !! h
  | GraphId n => graph_tracks_ g !! n
  | AsyncId n => async_tracks_ g !! n
  end.

Definition GetOrCreateSchedulerTrack (g : TimeGraph) : TimeGraph :=
  match scheduler_track_ g with
  | Some _ => g
  | None =>
      set_scheduler_track_ (Some new_track)
        (set_tracks_ (tracks_ g ++ [SchedulerId]) g)
  end.

Definition GetOrCreateThreadTrack (tid : Z) (g : TimeGraph) : TimeGraph :=
  match thread_tracks_ g !! tid with
  | Some _ => g
  | None =>
      let track := SetTrackColor (GetThreadColor tid) new_track in
      set_thread_tracks_ (<[tid := track]> (thread_tracks_ g))
        (set_tracks_ (tracks_ g ++ [ThreadId tid]) g)
  end.

Definition GetOrCreateGpuTrack (timeline_hash : Z) (g : TimeGraph) : TimeGraph :=
  match gpu_tracks_ g !! timeline_hash with
  | Some _ => g
  | None =>
      let timeline := default EmptyString (string_manager_ g !! timeline_hash) in
      let track := SetLabel (GpuTimelineLabel timeline) (SetName timeline new_track) in
      set_gpu_tracks_ (<[timeline_hash := track]> (gpu_tracks_ g))
        (set_tracks_ (tracks_ g ++ [GpuId timeline_hash]) g)
  end.

Definition GetOrCreateGraphTrack (name : string) (g : TimeGraph) : TimeGraph :=
  match graph_tracks_ g !! name with
  | Some _ => g
  | None =>
      let track := SetLabel (PlainLabel name) (SetName name new_track) in
      set_graph_tracks_ (<[name := track]> (graph_tracks_ g))
        (set_tracks_ (tracks_ g ++ [GraphId name]) g)
  end.

Definition GetOrCreateAsyncTrack (name : string) (g : TimeGraph) : TimeGraph :=
  match async_tracks_ g !! name with
  | Some _ => g
  | None =>
      set_async_tracks_ (<[name := new_track]> (async_tracks_ g))
        (set_tracks_ (tracks_ g ++ [AsyncId name]) g)
  end.

(** ** Ingestion *)

Definition ProcessAsyncTimer (track_name : string) (timer_info : TimerInfo)
    (g : TimeGraph) : TimeGraph :=
  let g := GetOrCreateAsyncTrack track_name g in
  set_async_tracks_ (alter (OnTimer timer_info) track_name (async_tracks_ g)) g.

Definition ProcessValueTrackingTimer (app : App) (timer_info : TimerInfo)
    (g : TimeGraph) : TimeGraph :=
  let event := ApiEventFromTimerInfo app timer_info in
  match ev_type event with
  | kString => g
  | ty =>
      let g := GetOrCreateGraphTrack (ev_name event) g in
      let time := ti_start timer_info in
      match ty with
      | kTrackInt | kTrackInt64 | kTrackUint | kTrackUint64
      | kTrackFloat | kTrackDouble =>
          set_graph_tracks_
            (alter (AddValue (ty, ev_value event, time)) (ev_name event)
               (graph_tracks_ g)) g
      | _ => g
      end
  end.

Definition ProcessOrbitFunctionTimer (app : App) (type : OrbitType)
    (timer_info : TimerInfo) (g : TimeGraph) : TimeGraph :=
  match type with
  | kOrbitTrackValue => ProcessValueTrackingTimer app timer_info g
  | kOrbitTimerStartAsync | kOrbitTimerStopAsync =>
      foldl (fun g call => ProcessAsyncTimer (fst call) (snd call) g) g
        (AsyncTimerListenerCalls app timer_info)
  | _ => g
  end.

Definition is_kNone (t : OrbitType) : bool :=
  match t with kNone => true | _ => false end.

(** [TimeGraph::ProcessTimer]. The scheduler track is created by the
    constructor and by [Clear]; a null [scheduler_track_] stays null. *)
Definition ProcessTimer (app : App) (timer_info : TimerInfo)
    (function : option FunctionInfo) (g : TimeGraph) : TimeGraph :=
  let g :=
    if capture_max_timestamp_ g <? ti_end timer_info
    then set_capture_max_timestamp_ (ti_end timer_info) g else g in
  let g :=
    match function with
    | Some f =>
        if is_kNone (fi_orbit_type f) then g
        else ProcessOrbitFunctionTimer app (fi_orbit_type f) timer_info g
    | None => g
    end in
  let g :=
    match ti_type timer_info with
    | kGpuActivity =>
        let timeline_hash := ti_timeline_hash timer_info in
        let g := GetOrCreateGpuTrack timeline_hash g in
        set_gpu_tracks_
          (alter (OnTimer timer_info) timeline_hash (gpu_tracks_ g)) g
    | ty =>
        let tid := ti_thread_id timer_info in
        let g := GetOrCreateThreadTrack tid g in
        let g :=
          match ty with
          | kIntrospection =>
              set_thread_tracks_
                (alter (SetColor kGreenIntrospection) tid (thread_tracks_ g)) g
          | _ => g
          end in
        match ty with
        | kCoreActivity =>
            let g :=
              set_scheduler_track_ (OnTimer timer_info <$> scheduler_track_ g) g in
            set_cores_seen_ ({[ti_processor timer_info]} ∪ cores_seen_ g) g
        | _ =>
            let g :=
              set_thread_tracks_
                (alter (OnTimer timer_info) tid (thread_tracks_ g)) g in
            set_thread_count_map_
              (<[tid := wrap32 (default 0 (thread_count_map_ g !! tid) + 1)]>
                 (thread_count_map_ g)) g
        end
    end in
  NeedsUpdate g.

Definition UpdateMaxTimeStamp (a_Time : Z) (g : TimeGraph) : TimeGraph :=
  if capture_max_timestamp_ g <? a_Time
  then set_capture_max_timestamp_ a_Time g else g.

(** [TimeGraph::Clear]. [process_track_] always points at the thread track
    of [kAllThreadsFakeTid], so it is read through [thread_tracks_]. *)
Definition Clear (g : TimeGraph) : TimeGraph :=
  let g := set_capture_min_timestamp_ kUint64Max g in
  let g := set_capture_max_timestamp_ 0 g in
  let g := set_thread_count_map_ ∅ g in
  let g := set_tracks_ [] g in
  let g := set_scheduler_track_ None g in
  let g := set_thread_tracks_ ∅ g in
  let g := set_gpu_tracks_ ∅ g in
  let g := set_graph_tracks_ ∅ g in
  let g := set_async_tracks_ ∅ g in
  let g := set_cores_seen_ ∅ g in
  let g := GetOrCreateSchedulerTrack g in
  let g := GetOrCreateThreadTrack kAllThreadsFakeTid g in
  let g := set_iterator_functions_ ∅ (set_iterator_text_boxes_ ∅ g) in
  NeedsUpdate g.

(** ** Capture extent and visible window *)


Definition UpdateCaptureMinMaxTimestamps (app : App) (g : TimeGraph)
    : TimeGraph * bool :=
  let scan (acc : Z) (id : TrackId) : Z :=
    match get_track g id with
    | Some track =>
        if 0 <? GetNumTimers track then
          let min := GetMinTime track in
          if (0 <? min) && (min <? acc) then min else acc
        else acc
    | None => acc
    end in
  let g := set_capture_min_timestamp_ (foldl scan kUint64Max (tracks_ g)) g in
  let cs := GetCallstackData app in
  let g :=
    if 0 <? GetCallstackEventsCount cs then
      set_capture_max_timestamp_ (Z.max (capture_max_timestamp_ g) (cs_max_time cs))
        (set_capture_min_timestamp_
           (Z.min (capture_min_timestamp_ g) (cs_min_time cs)) g)
    else g in
  (g, negb (capture_min_timestamp_ g =? kUint64Max)).

Definition GetCaptureTimeSpanUs (app : App) (g : TimeGraph) : TimeGraph * double :=
  let '(g, has_data) := UpdateCaptureMinMaxTimestamps app g in
  if has_data
  then (g, TicksToMicroseconds (capture_min_timestamp_ g) (capture_max_timestamp_ g))
  else (g, D.zero).

Definition GetCurrentTimeSpanUs (g : TimeGraph) : double :=
  D.sub (max_time_us_ g) (min_time_us_ g).

Definition SetMinMax (app : App) (a_MinTimeUs a_MaxTimeUs : double)
    (g : TimeGraph) : TimeGraph :=
  let desiredTimeWindow := D.sub a_MaxTimeUs a_MinTimeUs in
  let g := set_min_time_us_ (D.max a_MinTimeUs D.zero) g in
  let '(g, span) := GetCaptureTimeSpanUs app g in
  let g := set_max_time_us_ (D.min (D.add (min_time_us_ g) desiredTimeWindow) span) g in
  NeedsUpdate g.



Definition ZoomTime (app : App) (a_ZoomValue : float32) (a_MouseRatio : double)
    (g : TimeGraph) : TimeGraph :=
  let g := set_zoom_value_ a_ZoomValue g in
  let g := set_mouse_ratio_ a_MouseRatio g in
  let incrementRatio := D.lit_0_1 in
  let scale :=
    if F.ltb F.zero a_ZoomValue then D.add D.one incrementRatio
    else D.div D.one (D.add D.one incrementRatio) in
  let CurrentTimeWindowUs := D.sub (max_time_us_ g) (min_time_us_ g) in
  let g :=
    set_ref_time_us_ (D.add (min_time_us_ g) (D.mul a_MouseRatio CurrentTimeWindowUs)) g in
  let timeLeft := D.max (D.sub (ref_time_us_ g) (min_time_us_ g)) D.zero in
  let timeRight := D.max (D.sub (max_time_us_ g) (ref_time_us_ g)) D.zero in
  let minTimeUs := D.sub (ref_time_us_ g) (D.mul scale timeLeft) in
  let maxTimeUs := D.add (ref_time_us_ g) (D.mul scale timeRight) in
  if D.ltb (D.sub maxTimeUs minTimeUs) D.lit_0_001 then g
  else SetMinMax app minTimeUs maxTimeUs g.









(** ** Time mapping *)

Definition GetTime (g : TimeGraph) (a_Ratio : double) : double :=
  let CurrentWidth := D.sub (max_time_us_ g) (min_time_us_ g) in
  let Delta := D.mul a_Ratio CurrentWidth in
  D.add (min_time_us_ g) Delta.

Definition GetUsFromTick (g : TimeGraph) (time : Z) : double :=
  D.sub (TicksToMicroseconds (capture_min_timestamp_ g) time) (min_time_us_ g).

Definition GetTickFromUs (g : TimeGraph) (micros : double) : option Z :=
  nanos ← D.to_uint64 (D.mul D.lit_1000 micros);
  Some (wrap64 (capture_min_timestamp_ g + nanos)).

Definition GetTickFromWorld (g : TimeGraph) (world_x : float32) : option Z :=
  let ratio :=
    if negb (F.eqb (world_width_ g) F.zero)
    then F.to_double (F.div (F.sub world_x (world_start_x_ g)) (world_width_ g))
    else D.zero in
  time_span_ns ← D.to_uint64 (D.mul D.lit_1000 (GetTime g ratio));
  Some (wrap64 (capture_min_timestamp_ g + time_span_ns)).

Definition GetWorldFromTick (g : TimeGraph) (a_Time : Z) : float32 :=
  if D.ltb D.zero (time_window_us_ g) then
    let start :=
      D.sub (TicksToMicroseconds (capture_min_timestamp_ g) a_Time) (min_time_us_ g) in
    let normalizedStart := D.div start (time_window_us_ g) in
    F.of_double
      (D.add (F.to_double (world_start_x_ g))
         (D.mul normalizedStart (F.to_double (world_width_ g))))
  else F.zero.

(** ** Selection *)

Definition add_selected (m : gmap Z (list CallstackEvent)) (event : CallstackEvent)
    : gmap Z (list CallstackEvent) :=
  let m := <[ce_thread_id event := default [] (m !! ce_thread_id event) ++ [event]]> m in
  <[kAllThreadsFakeTid := default [] (m !! kAllThreadsFakeTid) ++ [event]]> m.

(** [TimeGraph::SelectEvents]: the new state and the returned events, or
    [None] when a pixel-to-tick conversion is undefined. The same list is
    also handed to the application ([SelectCallstackEvents]). *)
Definition SelectEvents (app : App) (world_start world_end : float32)
    (thread_id : Z) (g : TimeGraph) : option (TimeGraph * list CallstackEvent) :=
  let '(world_start, world_end) :=
    if F.ltb world_end world_start then (world_end, world_start)
    else (world_start, world_end) in
  t0 ← GetTickFromWorld g world_start;
  t1 ← GetTickFromWorld g world_end;
  let selected_callstack_events :=
    if thread_id =? kAllThreadsFakeTid
    then GetCallstackEventsInTimeRange (GetCallstackData app) t0 t1
    else GetCallstackEventsOfTidInTimeRange (GetCallstackData app) thread_id t0 t1 in
  let g :=
    set_selected_callstack_events_per_thread_
      (foldl add_selected ∅ selected_callstack_events) g in
  Some (NeedsUpdate g, selected_callstack_events).

(** ** The iterator overlay *)

Module PickingMode.
Inductive t := kNone | kHover | kClick.
End PickingMode.

Record GlCanvas := mkGlCanvas {
  GetWorldTopLeftX : float32;
  GetWorldWidth : float32;
  GetWorldTopLeftY : float32;
  GetWorldHeight : float32
}.

Definition Vec2 : Type := float32 * float32.

Inductive ZValue := kZValueOverlay | kZValueText.

(** The text of an annotation: the pair of functions it runs between (or
    the total), and the elapsed ticks that the source prints as a time. *)
Inductive OverlayLabel :=
  | LabelBetween (function_a function_b : FunctionInfo)
  | LabelTotal.

(** The calls made on the batcher and on the text renderer. *)
Inductive Primitive :=
  | AddVerticalLine (pos : Vec2) (size : float32) (z : ZValue) (color : Color)
  | AddBox (pos size : Vec2) (z : ZValue) (color : Color)
  | AddTextTrailingCharsPrioritized (label : OverlayLabel) (time : Z)
      (x y : float32) (z : ZValue) (color : Color) (max_size : float32)
  | AddLine (from to : Vec2) (z : ZValue) (color : Color).

Definition kWhite : Color := (255, 255, 255, 255).

Definition GetIteratorBoxColor (index : Z) : Color :=
  if index mod 2 =? 0 then (177, 203, 250, 60) else (81, 102, 157, 60).

Definition DrawIteratorBox (pos size : Vec2) (color : Color)
    (label : OverlayLabel) (time : Z) (text_y : float32) : list Primitive :=
  let kAdditionalSpaceForLine := F.of_Z 10 in
  let kLeftOffset := F.of_Z 5 in
  let max_size := fst size in
  let kOffsetBelowText := F.div kAdditionalSpaceForLine (F.of_Z 2) in
  let line_from := (fst pos, F.add text_y kOffsetBelowText) in
  let line_to := (F.add (fst pos) (fst size), F.add text_y kOffsetBelowText) in
  [ AddBox pos size kZValueOverlay color;
    AddTextTrailingCharsPrioritized label time (F.add (fst pos) kLeftOffset)
      (F.add text_y kAdditionalSpaceForLine) kZValueText kWhite max_size;
    AddLine line_from line_to kZValueOverlay kWhite ].

(** Modelled from the spec: [GetTimeWindowUs] returns the cached window
    width [time_window_us_]. *)
Definition GetTimeWindowUs (g : TimeGraph) : double := time_window_us_ g.

Definition start_le (a b : Z * TimerInfo) : Prop :=
  ti_start (snd a) <= ti_start (snd b).

#[local] Instance start_le_dec a b : Decision (start_le a b).
Proof. unfold start_le. apply _. Defined.

(** The vertical marker line of one box, with its world x coordinate. *)
Definition iterator_line (g : TimeGraph) (canvas : GlCanvas) (box : Z * TimerInfo)
    : float32 * Primitive :=
  let timer_info := snd box in
  let inv_time_window := D.div D.one (GetTimeWindowUs g) in
  let start_us := GetUsFromTick g (ti_start timer_info) in
  let normalized_start := D.mul start_us inv_time_window in
  let world_timer_x :=
    F.of_double
      (D.add (F.to_double (GetWorldTopLeftX canvas))
         (D.mul normalized_start (F.to_double (GetWorldWidth canvas)))) in
  (world_timer_x,
   AddVerticalLine (world_timer_x, GetWorldTopLeftY canvas)
     (SFopp (GetWorldHeight canvas)) kZValueOverlay
     (GetThreadColor (ti_thread_id timer_info))).

(** The loop over adjacent pairs, from index [k]; [prev] is box [k - 1].
    A marker without a registered function fails the [CHECK] ([None]). *)
Fixpoint draw_iterator_boxes (g : TimeGraph) (canvas : GlCanvas)
    (bottom_margin : float32) (k : Z) (prev : (Z * TimerInfo) * float32)
    (rest : list ((Z * TimerInfo) * float32)) : option (list Primitive) :=
  match rest with
  | [] => Some []
  | cur :: rest' =>
      let world_start_y := GetWorldTopLeftY canvas in
      let world_height := GetWorldHeight canvas in
      let pos := (snd prev, F.sub world_start_y world_height) in
      let size_x := F.sub (snd cur) (fst pos) in
      let box_size := (size_x, world_height) in
      let color := GetIteratorBoxColor (k - 1) in
      function_a ← iterator_functions_ g !! fst (fst prev);
      function_b ← iterator_functions_ g !! fst (fst cur);
      let label := LabelBetween function_a function_b in
      let time := TicksToDuration (ti_start (snd (fst prev))) (ti_start (snd (fst cur))) in
      let height_per_text :=
        F.div (F.sub (F.div world_height (F.of_Z 2)) bottom_margin)
          (F.of_Z (Z.of_nat (size (iterator_text_boxes_ g)) - 1)) in
      let text_y :=
        F.sub (F.add (snd pos) (F.div world_height (F.of_Z 2)))
          (F.mul (F.of_Z k) height_per_text) in
      more ← draw_iterator_boxes g canvas bottom_margin (k + 1) cur rest';
      Some (DrawIteratorBox pos box_size color label time text_y ++ more)
  end.

Definition is_picking (m : PickingMode.t) : bool :=
  match m with PickingMode.kNone => false | _ => true end.

(** [TimeGraph::DrawOverlay]: the primitives emitted, in order. *)
Definition DrawOverlay (g : TimeGraph) (canvas : GlCanvas) (bottom_margin : float32)
    (picking_mode : PickingMode.t) : option (list Primitive) :=
  if is_picking picking_mode || (size (iterator_text_boxes_ g) =? 0)%nat then Some []
  else
    let boxes := merge_sort start_le (map_to_list (iterator_text_boxes_ g)) in
    let lines := iterator_line g canvas <$> boxes in
    let with_x := zip boxes (fst <$> lines) in
    let world_start_y := GetWorldTopLeftY canvas in
    let world_height := GetWorldHeight canvas in
    pair_boxes ←
      match with_x with
      | [] => Some []
      | first :: rest => draw_iterator_boxes g canvas bottom_margin 1 first rest
      end;
    let total :=
      if (2 <? length boxes)%nat then
        match head with_x, last with_x with
        | Some first, Some last_box =>
            let pos := (snd first, F.sub world_start_y world_height) in
            let size_x := F.sub (snd last_box) (fst pos) in
            let box_size := (size_x, world_height) in
            let time :=
              TicksToDuration (ti_start (snd (fst first))) (ti_start (snd (fst last_box))) in
            let text_y := F.add (snd pos) (F.div world_height (F.of_Z 2)) in
            DrawIteratorBox pos box_size (0, 0, 0, 0) LabelTotal time text_y
        | _, _ => []
        end
      else [] in
    Some ((snd <$> lines) ++ pair_boxes ++ total).

(** ** Ordering the tracks *)

Definition count_ge (a b : Z * Z) : Prop := snd b <= snd a.

#[local] Instance count_ge_dec a b : Decision (count_ge a b).
Proof. unfold count_ge. apply _. Defined.

(** Modelled from the spec: [OrbitUtils::ReverseValueSort], the entries of a
    map ranked by descending value. *)
Definition ReverseValueSort (m : gmap Z Z) : list (Z * Z) :=
  merge_sort count_ge (map_to_list m).

Definition thread_name (g : TimeGraph) (tid : Z) : string :=
  match thread_tracks_ g !! tid with
  | Some track => name_ track
  | None => EmptyString
  end.

Definition thread_is_empty (g : TimeGraph) (tid : Z) : bool :=
  match thread_tracks_ g !! tid with
  | Some track => IsEmpty track
  | None => true
  end.

(** One round of the filter loop: a thread id is pushed once for every
    filter piece its track's name contains. *)
Definition filter_step (filters : list string) (st : TimeGraph * list Z) (tid : Z)
    : TimeGraph * list Z :=
  let '(g, filteredThreadIds) := st in
  let g := GetOrCreateThreadTrack tid g in
  (g,
   foldl
     (fun acc filter =>
        if StrContains (thread_name g tid) filter then acc ++ [tid] else acc)
     filteredThreadIds filters).

Definition filter_thread_ids (filters : list string) (ids : list Z) (g : TimeGraph)
    : TimeGraph * list Z :=
  foldl (filter_step filters) (g, []) ids.

(** The last loop: the non-empty thread tracks, in the order of the ids. *)
Definition push_thread_tracks (ids : list Z) (g : TimeGraph) : TimeGraph :=
  foldl
    (fun g thread_id =>
       let g := GetOrCreateThreadTrack thread_id g in
       if thread_is_empty g thread_id then g
       else set_sorted_tracks_ (sorted_tracks_ g ++ [ThreadId thread_id]) g)
    g ids.

Definition QueryMillis (app : App) (g : TimeGraph) : double :=
  D.sub (now_millis app) (last_thread_reorder_ g).

Definition must_reorder (app : App) (g : TimeGraph) : bool :=
  negb (IsCapturing app) || D.ltb D.lit_1000 (QueryMillis app g).

Definition sorted_thread_ids (g : TimeGraph) : list Z :=
  let sortedThreads := ReverseValueSort (thread_count_map_ g) in
  let instrumented :=
    filter (fun tid => tid ≠ kAllThreadsFakeTid) (fst <$> sortedThreads) in
  let sortedByEvents := ReverseValueSort (event_count_ g) in
  let sampled :=
    filter
      (fun tid => tid ≠ kAllThreadsFakeTid ∧ thread_count_map_ g !! tid = None)
      (fst <$> sortedByEvents) in
  instrumented ++ sampled.

Definition is_empty_string (s : string) : bool :=
  match s with EmptyString => true | _ => false end.

(** One round of the first loop of [SortTracks]. *)
Definition record_event_count (g : TimeGraph) (tid_and_count : Z * Z) : TimeGraph :=
  let thread_id := fst tid_and_count in
  let count := snd tid_and_count in
  let g := set_event_count_ (<[thread_id := count]> (event_count_ g)) g in
  GetOrCreateThreadTrack thread_id g.

(** [TimeGraph::SortTracks]. Maps are walked in the order the registry
    yields their entries. *)
Definition SortTracks (app : App) (g : TimeGraph) : TimeGraph :=
  let cs := GetCallstackData app in
  let g :=
    set_event_count_ (<[kAllThreadsFakeTid := GetCallstackEventsCount cs]> ∅) g in
  let g := GetOrCreateThreadTrack kAllThreadsFakeTid g in
  let g := foldl record_event_count g (GetCallstackEventsCountsPerTid cs) in
  if must_reorder app g then
    let sortedThreadIds := sorted_thread_ids g in
    let '(g, sortedThreadIds) :=
      if is_empty_string (thread_filter_ g) then (g, sortedThreadIds)
      else filter_thread_ids (StrSplit (thread_filter_ g) " ") sortedThreadIds g in
    let g := set_sorted_tracks_ [] g in
    let g :=
      match scheduler_track_ g with
      | Some track =>
          if IsEmpty track then g
          else set_sorted_tracks_ (sorted_tracks_ g ++ [SchedulerId]) g
      | None => g
      end in
    let g :=
      set_sorted_tracks_
        (sorted_tracks_ g ++ (GpuId <$> (fst <$> map_to_list (gpu_tracks_ g)))) g in
    let g :=
      set_sorted_tracks_
        (sorted_tracks_ g ++ (GraphId <$> (fst <$> map_to_list (graph_tracks_ g)))) g in
    let g :=
      set_sorted_tracks_
        (sorted_tracks_ g ++ (AsyncId <$> (fst <$> map_to_list (async_tracks_ g)))) g in
    let g :=
      if thread_is_empty g kAllThreadsFakeTid then g
      else set_sorted_tracks_ (sorted_tracks_ g ++ [ThreadId kAllThreadsFakeTid]) g in
    let g := push_thread_tracks sortedThreadIds g in
    set_last_thread_reorder_ (now_millis app) g
  else g.

(** ** Vocabulary of the statements *)

(** A run of deliveries to [ProcessTimer], each with the collaborators as
    they are at that call. *)
Definition Delivery : Type := App * TimerInfo * option FunctionInfo.

Definition deliver (g : TimeGraph) (d : Delivery) : TimeGraph :=
  ProcessTimer (fst (fst d)) (snd (fst d)) (snd d) g.

Definition process_timers (ds : list Delivery) (g : TimeGraph) : TimeGraph :=
  foldl deliver g ds.

(** The three stages of [ProcessTimer], named so that each can be reasoned
    about on its own ([ProcessTimer_stages] shows they compose to it). *)
Definition raise_capture_max (r : TimerInfo) (g : TimeGraph) : TimeGraph :=
  if capture_max_timestamp_ g <? ti_end r
  then set_capture_max_timestamp_ (ti_end r) g else g.

Definition orbit_function_stage (app : App) (r : TimerInfo)
    (function : option FunctionInfo) (g : TimeGraph) : TimeGraph :=
  match function with
  | Some f =>
      if is_kNone (fi_orbit_type f) then g
      else ProcessOrbitFunctionTimer app (fi_orbit_type f) r g
  | None => g
  end.

Definition route_timer (timer_info : TimerInfo) (g : TimeGraph) : TimeGraph :=
  match ti_type timer_info with
  | kGpuActivity =>
      let timeline_hash := ti_timeline_hash timer_info in
      let g := GetOrCreateGpuTrack timeline_hash g in
      set_gpu_tracks_
        (alter (OnTimer timer_info) timeline_hash (gpu_tracks_ g)) g
  | ty =>
      let tid := ti_thread_id timer_info in
      let g := GetOrCreateThreadTrack tid g in
      let g :=
        match ty with
        | kIntrospection =>
            set_thread_tracks_
              (alter (SetColor kGreenIntrospection) tid (thread_tracks_ g)) g
        | _ => g
        end in
      match ty with
      | kCoreActivity =>
          let g :=
            set_scheduler_track_ (OnTimer timer_info <$> scheduler_track_ g) g in
          set_cores_seen_ ({[ti_processor timer_info]} ∪ cores_seen_ g) g
      | _ =>
          let g :=
            set_thread_tracks_
              (alter (OnTimer timer_info) tid (thread_tracks_ g)) g in
          set_thread_count_map_
            (<[tid := wrap32 (default 0 (thread_count_map_ g !! tid) + 1)]>
               (thread_count_map_ g)) g
      end
  end.

(** The records held by the thread track of [tid] (none when there is no
    such track). *)
Definition thread_timers (g : TimeGraph) (tid : Z) : list TimerInfo :=
  match thread_tracks_ g !! tid with
  | Some track => timers_ track
  | None => []
  end.

(** ** Sample engines for the scenarios *)

(** Modelled from the spec: the engine as its constructor leaves it, the
    members at their zero defaults (TimeGraph.h is not among the sources)
    and the two always-present tracks created. *)
Definition zeroed_graph : TimeGraph :=
  mkTimeGraph kUint64Max 0 D.zero D.zero D.zero D.zero F.zero D.zero F.zero F.zero
    ∅ ∅ [] None ∅ ∅ ∅ ∅ ∅ [] EmptyString ∅ ∅ ∅ false false D.zero ∅.

Definition new_TimeGraph : TimeGraph :=
  GetOrCreateThreadTrack kAllThreadsFakeTid (GetOrCreateSchedulerTrack zeroed_graph).

(** An application with no sampled callstacks and no capture running. *)
Definition idle_app : App :=
  mkApp (mkCallstackData 0 [] 0 0 (fun _ _ => []) (fun _ _ _ => []))
    false D.zero (fun _ => mkApiEvent kApiOther EmptyString 0) (fun _ => []).

(** ** Zoom: the degenerate window *)

(** The window [ZoomTime] computes before it decides whether to apply it. *)
Definition zoomed_window (a_ZoomValue : float32) (a_MouseRatio : double)
    (g : TimeGraph) : double * double :=
  let scale :=
    if F.ltb F.zero a_ZoomValue then D.add D.one D.lit_0_1
    else D.div D.one (D.add D.one D.lit_0_1) in
  let ref_time := D.add (min_time_us_ g) (D.mul a_MouseRatio (GetCurrentTimeSpanUs g)) in
  let timeLeft := D.max (D.sub ref_time (min_time_us_ g)) D.zero in
  let timeRight := D.max (D.sub (max_time_us_ g) ref_time) D.zero in
  (D.sub ref_time (D.mul scale timeLeft), D.add ref_time (D.mul scale timeRight)).

(** The resulting width is below one nanosecond. *)
Definition zoom_is_degenerate (a_ZoomValue : float32) (a_MouseRatio : double)
    (g : TimeGraph) : bool :=
  let '(minTimeUs, maxTimeUs) := zoomed_window a_ZoomValue a_MouseRatio g in
  D.ltb (D.sub maxTimeUs minTimeUs) D.lit_0_001.

(** A window half a nanosecond wide, from 10 us on. *)
Definition narrow_graph : TimeGraph :=
  set_max_time_us_ (D.add (D.of_Z 10) (D.div (D.of_Z 5) (D.of_Z 10000)))
    (set_min_time_us_ (D.of_Z 10) new_TimeGraph).

(** ** The capture bounds and span *)




(** ** Moving a range into view *)




Definition window (g : TimeGraph) : double * double := (min_time_us_ g, max_time_us_ g).





(** ** Tick and microsecond round trip *)

Definition round_trip (g : TimeGraph) (t : Z) : option Z :=
  GetTickFromUs g (GetUsFromTick g t).

(** The round trip returns a tick at most one tick away. *)
Definition round_trip_within_one (g : TimeGraph) (t : Z) : Prop :=
  exists t', round_trip g t = Some t' /\ Z.abs (t' - t) <= 1.

(** A window that starts 5 us into a capture beginning at tick 1,000,000. *)
Definition offset_graph : TimeGraph :=
  set_min_time_us_ (D.of_Z 5)
    (set_max_time_us_ (D.of_Z 100)
       (set_capture_max_timestamp_ 2000000
          (set_capture_min_timestamp_ 1000000 new_TimeGraph))).

(** The round trip of an offset of [d] ticks from the capture start when the
    window starts at zero. *)
Definition round_trip_offset (d : Z) : option Z :=
  D.to_uint64 (D.mul D.lit_1000 (D.sub (D.mul (D.of_Z d) D.lit_0_001) D.zero)).

(** A capture from tick 1000 to tick 2^54, the window starting at zero. *)
Definition long_capture_graph : TimeGraph :=
  set_capture_max_timestamp_ (2 ^ 54) (set_capture_min_timestamp_ 1000 new_TimeGraph).

(** A capture that ends at the last tick a [uint64_t] holds and starts
    4,503,599,627,370,517 ticks before it, the window starting at zero. *)
Definition late_capture_graph : TimeGraph :=
  set_capture_max_timestamp_ kUint64Max
    (set_capture_min_timestamp_ (kUint64Max - 4503599627370517) new_TimeGraph).

(** ** The invariants of the extent and of the window *)







(** One span of 1000 us on thread 7, the extent computed and the window set
    to [0 us, 50 us]. *)
Definition settled_graph : TimeGraph :=
  SetMinMax idle_app D.zero (D.of_Z 50)
    (ProcessTimer idle_app (mkTimerInfo 1 1000001 7 0 kFunctionSpan 0 0 0) None
       (Clear new_TimeGraph)).


(** ** The overlay *)

(** The text of the total annotation. *)
Definition is_total_text (p : Primitive) : bool :=
  match p with
  | AddTextTrailingCharsPrioritized LabelTotal _ _ _ _ _ _ => true
  | _ => false
  end.

Definition is_vertical_line (p : Primitive) : bool :=
  match p with AddVerticalLine _ _ _ _ => true | _ => false end.

(** An engine with one marked record: a span of thread 7 starting at tick
    1500, in a window of 10 us over a capture that starts at tick 1000. *)
Definition one_marker_graph : TimeGraph :=
  set_iterator_text_boxes_ {[ 1 := mkTimerInfo 1500 2500 7 0 kFunctionSpan 0 0 0 ]}
    (set_time_window_us_ (D.of_Z 10)
       (set_max_time_us_ (D.of_Z 10)
          (set_capture_max_timestamp_ 20000
             (set_capture_min_timestamp_ 1000 new_TimeGraph)))).

Definition sample_canvas : GlCanvas :=
  mkGlCanvas F.zero (F.of_Z 1000) F.zero (F.of_Z 600).

(** ** The draw order, in the words of the specification *)

(** The sampled-callstack counts [SortTracks] reads from the capture: the
    total under the all-threads id, then the count of every thread. *)
Definition sampled_counts (app : App) : gmap Z Z :=
  foldl (fun m tid_and_count => <[fst tid_and_count := snd tid_and_count]> m)
    (<[kAllThreadsFakeTid := GetCallstackEventsCount (GetCallstackData app)]> ∅)
    (GetCallstackEventsCountsPerTid (GetCallstackData app)).

(** A thread passes the filter when the name of its track contains one of
    the space-separated pieces of the filter (the empty filter has one
    piece, the empty string, which every name contains). *)
Definition passes_filter (g : TimeGraph) (tid : Z) : bool :=
  existsb (fun piece => StrContains (thread_name g tid) piece)
    (StrSplit (thread_filter_ g) " ").

(** Threads with instrumented events by descending event count, then the
    other sampled threads by descending callstack count, the all-threads id
    left out; of these, the threads that pass the filter. *)
Definition thread_draw_order (app : App) (g : TimeGraph) : list Z :=
  let instrumented :=
    filter (fun tid => tid ≠ kAllThreadsFakeTid)
      (fst <$> ReverseValueSort (thread_count_map_ g)) in
  let sampled :=
    filter
      (fun tid => tid ≠ kAllThreadsFakeTid ∧ thread_count_map_ g !! tid = None)
      (fst <$> ReverseValueSort (sampled_counts app)) in
  filter (fun tid => passes_filter g tid = true) (instrumented ++ sampled).

(** Scheduler track if non-empty, every GPU, graph and async track, the
    process track if non-empty, then the non-empty thread tracks in their
    order, the track of thread [tid] listed [times tid] times in a row. *)
Definition expected_draw_order (app : App) (g : TimeGraph) (times : Z -> nat)
    : list TrackId :=
  (match scheduler_track_ g with
   | Some track => if IsEmpty track then [] else [SchedulerId]
   | None => []
   end)
  ++ (GpuId <$> (fst <$> map_to_list (gpu_tracks_ g)))
  ++ (GraphId <$> (fst <$> map_to_list (graph_tracks_ g)))
  ++ (AsyncId <$> (fst <$> map_to_list (async_tracks_ g)))
  ++ (if thread_is_empty g kAllThreadsFakeTid then [] else [ThreadId kAllThreadsFakeTid])
  ++ (ThreadId <$>
        flat_map (fun tid => replicate (times tid) tid)
          (filter (fun tid => thread_is_empty g tid = false) (thread_draw_order app g))).

(** The pieces of a filter put together again, a space between them. *)
Fixpoint join_pieces (pieces : list string) : string :=
  match pieces with
  | [] => EmptyString
  | [piece] => piece
  | piece :: more => piece +:+ String " " (join_pieces more)
  end.

(** What [SortTracks] reads of an engine, apart from the lists it rebuilds. *)
Definition same_view (g g' : TimeGraph) : Prop :=
  thread_count_map_ g' = thread_count_map_ g
  /\ scheduler_track_ g' = scheduler_track_ g
  /\ gpu_tracks_ g' = gpu_tracks_ g
  /\ graph_tracks_ g' = graph_tracks_ g
  /\ async_tracks_ g' = async_tracks_ g
  /\ thread_filter_ g' = thread_filter_ g
  /\ last_thread_reorder_ g' = last_thread_reorder_ g
  /\ (forall tid, thread_is_empty g' tid = thread_is_empty g tid)
  /\ (forall tid, thread_name g' tid = thread_name g tid).

(** An engine with an empty GPU track (timeline 42) and a thread track for
    thread 7 holding one span. *)
Definition gpu_and_thread_graph : TimeGraph :=
  ProcessTimer idle_app (mkTimerInfo 100 200 7 0 kFunctionSpan 0 0 0) None
    (GetOrCreateGpuTrack 42 (Clear new_TimeGraph)).

(** Three threads named as [DrawTracks] names them from the capture,
    "render" (7), "audio" (8) and "main" (9), with one, two and three spans,
    under the filter "ren aud". *)
Definition named_threads_graph : TimeGraph :=
  let g :=
    foldl (fun g tid => ProcessTimer idle_app (mkTimerInfo 100 200 tid 0 kFunctionSpan 0 0 0)
                          None g)
      (Clear new_TimeGraph) [7; 8; 8; 9; 9; 9] in
  set_thread_filter_ "ren aud"
    (set_thread_tracks_
       (alter (SetName "main") 9
          (alter (SetName "audio") 8 (alter (SetName "render") 7 (thread_tracks_ g))))
       g).

(** ** Selection *)

(** Two numbers that compare equal: the same number, or two zeros. *)
Definition same_number (x y : spec_float) : Prop :=
  x = y \/ exists s s', x = S754_zero s /\ y = S754_zero s'.

(** A capture whose event index answers a range query with one event at
    each end of the range, on threads 1 and 2. *)
Definition ticks_app : App :=
  mkApp
    (mkCallstackData 2 [(1, 1); (2, 1)] 0 0
       (fun t0 t1 => [mkCallstackEvent t0 0 1; mkCallstackEvent t1 0 2])
       (fun tid t0 t1 => [mkCallstackEvent t0 0 tid]))
    false D.zero (fun _ => mkApiEvent kApiOther EmptyString 0) (fun _ => []).

(** An engine 1000 pixels wide showing [0 us, 100 us] of a capture that
    starts at tick 5000. *)
Definition wide_graph : TimeGraph :=
  mkTimeGraph 5000 200000 D.zero (D.of_Z 100) D.zero (D.of_Z 100) F.zero D.zero
    F.zero (F.of_Z 1000)
    ∅ ∅ [] None ∅ ∅ ∅ ∅ ∅ [] EmptyString ∅ ∅ ∅ false false D.zero ∅.

(** ** Counters and the registry as a whole *)

(** [TimeGraph::GetNumTimers]: the records of every track, added up in 32
    bits. *)
Definition TimeGraph_GetNumTimers (g : TimeGraph) : Z :=
  foldl
    (fun numTimers id =>
       match get_track g id with
       | Some track => wrap32 (numTimers + GetNumTimers track)
       | None => numTimers
       end)
    0 (tracks_ g).

(** [TimeGraph::GetNumCores]. *)
Definition GetNumCores (g : TimeGraph) : Z := wrap32 (Z.of_nat (size (cores_seen_ g))).

(** The get-or-create call for the track of an identity. *)
Definition GetOrCreateTrack (id : TrackId) (g : TimeGraph) : TimeGraph :=
  match id with
  | SchedulerId => GetOrCreateSchedulerTrack g
  | ThreadId tid => GetOrCreateThreadTrack tid g
  | GpuId h => GetOrCreateGpuTrack h g
  | GraphId n => GetOrCreateGraphTrack n g
  | AsyncId n => GetOrCreateAsyncTrack n g
  end.

(** The list of all tracks names every registered track, once. *)
Definition registry_consistent (g : TimeGraph) : Prop :=
  NoDup (tracks_ g) /\ forall id, id ∈ tracks_ g <-> is_Some (get_track g id).

(** The records a track identity resolves to (none for no track). *)
Definition track_timers (g : TimeGraph) (id : TrackId) : list TimerInfo :=
  match get_track g id with
  | Some track => timers_ track
  | None => []
  end.

Definition is_core_activity (r : TimerInfo) : bool :=
  match ti_type r with kCoreActivity => true | _ => false end.

Definition is_gpu_activity (r : TimerInfo) : bool :=
  match ti_type r with kGpuActivity => true | _ => false end.

(** The track a record is appended to by [ProcessTimer]. *)
Definition destination (r : TimerInfo) : TrackId :=
  match ti_type r with
  | kGpuActivity => GpuId (ti_timeline_hash r)
  | kCoreActivity => SchedulerId
  | _ => ThreadId (ti_thread_id r)
  end.

(** The function passed with a record starts or stops an async timer. *)
Definition is_async_function (function : option FunctionInfo) : bool :=
  match function with
  | Some f =>
      match fi_orbit_type f with
      | kOrbitTimerStartAsync | kOrbitTimerStopAsync => true
      | _ => false
      end
  | None => false
  end.

#[global] Instance TrackId_eq_dec : EqDecision TrackId.
Proof. solve_decision. Defined.

(** A step that keeps the list of tracks and which identities resolve. *)
Definition same_shape (g g' : TimeGraph) : Prop :=
  tracks_ g' = tracks_ g
  /\ forall id, is_Some (get_track g' id) <-> is_Some (get_track g id).

Definition timers_of (o : option Track) : list TimerInfo :=
  match o with Some track => timers_ track | None => [] end.

Definition is_async_id (id : TrackId) : bool :=
  match id with AsyncId _ => true | _ => false end.

(** The per-thread event count agrees with the thread's track: no entry
    for a thread without records, else the number of records in 32 bits. *)
Definition counts_match (g : TimeGraph) : Prop :=
  forall tid,
    thread_count_map_ g !! tid
    = match thread_timers g tid with
      | [] => None
      | timers => Some (wrap32 (Z.of_nat (length timers)))
      end.

(** The cores of the core-activity records of a run. *)
Definition cores_of (ds : list Delivery) : gset Z :=
  list_to_set (ti_processor <$> filter (fun r => is_core_activity r = true) (snd <$> (fst <$> ds))).


(** The number of records over all listed tracks. *)
Definition total_timers (g : TimeGraph) : nat :=
  sum_list_with (fun id => length (track_timers g id)) (tracks_ g).

(** The list of all tracks only grows at its end. *)
Definition extends (g g' : TimeGraph) : Prop :=
  exists extra, tracks_ g' = tracks_ g ++ extra.


(** The scan of [UpdateCaptureMinMaxTimestamps] over the listed tracks: the
    smallest positive first-start tick of a track with records, or the
    largest 64-bit value. *)
Definition scan_min_time (g : TimeGraph) (ids : list TrackId) (start : Z) : Z :=
  foldl
    (fun acc id =>
       match get_track g id with
       | Some track =>
           if 0 <? GetNumTimers track then
             let min := GetMinTime track in
             if (0 <? min) && (min <? acc) then min else acc
           else acc
       | None => acc
       end)
    start ids.

(** A listed track that takes part in the scan. *)
Definition contributes (g : TimeGraph) (id : TrackId) (m : Z) : Prop :=
  id ∈ tracks_ g
  /\ exists track, get_track g id = Some track
                   /\ timers_ track <> [] /\ GetMinTime track = m /\ 0 < m.

(** * Properties *)

(** ** Frame facts: what the registry operations leave alone *)

Ltac case_matches :=
  repeat match goal with
         | |- context [match ?x with _ => _ end] => destruct x eqn:?; simpl
         end.

Ltac frame :=
  intros;
  unfold ProcessAsyncTimer, ProcessValueTrackingTimer, GetOrCreateAsyncTrack,
    GetOrCreateGraphTrack, GetOrCreateGpuTrack, GetOrCreateThreadTrack,
    GetOrCreateSchedulerTrack, NeedsUpdate;
  simpl; case_matches; reflexivity.

Lemma foldl_invariant {A B C : Type} (proj : A -> C) (f : A -> B -> A) (l : list B) :
  (forall a b, proj (f a b) = proj a) ->
  forall a, proj (foldl f a l) = proj a.
Proof.
  intros Hf. induction l as [|b l IH]; intros a; simpl; [reflexivity|].
  rewrite IH. apply Hf.
Qed.

(** Whatever the manual-instrumentation stage does, it only touches the
    graph and async registries (and the list of all tracks). *)
Ltac orbit_frame proj :=
  intros;
  match goal with
  | |- context [orbit_function_stage _ _ ?f _] =>
      unfold orbit_function_stage; destruct f as [[? []]|]; simpl; try reflexivity;
      solve [ frame | apply (foldl_invariant proj); frame ]
  end.

Lemma orbit_stage_capture_max app r f g :
  capture_max_timestamp_ (orbit_function_stage app r f g) = capture_max_timestamp_ g.
Proof. orbit_frame capture_max_timestamp_. Qed.

Lemma orbit_stage_thread_tracks app r f g :
  thread_tracks_ (orbit_function_stage app r f g) = thread_tracks_ g.
Proof. orbit_frame thread_tracks_. Qed.

Lemma orbit_stage_gpu_tracks app r f g :
  gpu_tracks_ (orbit_function_stage app r f g) = gpu_tracks_ g.
Proof. orbit_frame gpu_tracks_. Qed.

Lemma orbit_stage_scheduler_track app r f g :
  scheduler_track_ (orbit_function_stage app r f g) = scheduler_track_ g.
Proof. orbit_frame scheduler_track_. Qed.

Lemma orbit_stage_cores_seen app r f g :
  cores_seen_ (orbit_function_stage app r f g) = cores_seen_ g.
Proof. orbit_frame cores_seen_. Qed.

Lemma orbit_stage_thread_count_map app r f g :
  thread_count_map_ (orbit_function_stage app r f g) = thread_count_map_ g.
Proof. orbit_frame thread_count_map_. Qed.


Lemma raise_capture_max_spec r g :
  capture_max_timestamp_ (raise_capture_max r g)
  = Z.max (capture_max_timestamp_ g) (ti_end r).
Proof.
  unfold raise_capture_max.
  destruct (Z.ltb_spec (capture_max_timestamp_ g) (ti_end r)); simpl; lia.
Qed.

Lemma ProcessTimer_stages app r f g :
  ProcessTimer app r f g
  = NeedsUpdate (route_timer r (orbit_function_stage app r f (raise_capture_max r g))).
Proof. reflexivity. Qed.

Lemma route_timer_capture_max r g :
  capture_max_timestamp_ (route_timer r g) = capture_max_timestamp_ g.
Proof. unfold route_timer. destruct (ti_type r); frame. Qed.


Lemma ProcessTimer_capture_max app r f g :
  capture_max_timestamp_ (ProcessTimer app r f g)
  = Z.max (capture_max_timestamp_ g) (ti_end r).
Proof.
  rewrite ProcessTimer_stages. simpl.
  by rewrite route_timer_capture_max, orbit_stage_capture_max, raise_capture_max_spec.
Qed.


Lemma process_timers_app ds1 ds2 g :
  process_timers (ds1 ++ ds2) g = process_timers ds2 (process_timers ds1 g).
Proof. unfold process_timers. apply foldl_app. Qed.

Lemma process_timers_capture_max_mono ds g :
  capture_max_timestamp_ g <= capture_max_timestamp_ (process_timers ds g).
Proof.
  revert g. induction ds as [|d ds IH]; intros g; simpl; [lia|].
  etransitivity; [|apply IH].
  unfold deliver. rewrite ProcessTimer_capture_max. lia.
Qed.

(** C1. Along any run of [ProcessTimer] calls from any engine state,
    [capture_max_timestamp_] never decreases; right after a record is
    delivered it is at least that record's end tick; and so at the end of the
    run it is at least the end tick of every record delivered. *)
Theorem capture_max_monotone_and_covers (g : TimeGraph) (ds1 ds2 : list Delivery)
    (d : Delivery) :
  capture_max_timestamp_ (process_timers ds1 g)
    <= capture_max_timestamp_ (process_timers (ds1 ++ ds2) g)
  /\ ti_end (snd (fst d))
    <= capture_max_timestamp_ (process_timers (ds1 ++ [d]) g)
  /\ ti_end (snd (fst d))
    <= capture_max_timestamp_ (process_timers (ds1 ++ d :: ds2) g).
Proof.
  assert (Hd : forall g', ti_end (snd (fst d)) <= capture_max_timestamp_ (deliver g' d)).
  { intros g'. unfold deliver. rewrite ProcessTimer_capture_max. lia. }
  repeat split.
  - rewrite process_timers_app. apply process_timers_capture_max_mono.
  - rewrite process_timers_app. simpl. apply Hd.
  - rewrite process_timers_app. simpl.
    etransitivity; [apply Hd|apply process_timers_capture_max_mono].
Qed.

(** ** Routing of a core-activity record *)

Lemma GetOrCreateThreadTrack_timers tid tid' g :
  thread_timers (GetOrCreateThreadTrack tid g) tid' = thread_timers g tid'.
Proof.
  unfold GetOrCreateThreadTrack, thread_timers.
  destruct (thread_tracks_ g !! tid) eqn:E; [reflexivity|]. simpl.
  destruct (decide (tid = tid')) as [->|Hne].
  - by rewrite lookup_insert_eq, E.
  - by rewrite lookup_insert_ne.
Qed.

Lemma GetOrCreateThreadTrack_is_Some tid g :
  is_Some (thread_tracks_ (GetOrCreateThreadTrack tid g) !! tid).
Proof.
  unfold GetOrCreateThreadTrack.
  destruct (thread_tracks_ g !! tid) eqn:E; [by rewrite E|]. simpl.
  rewrite lookup_insert_eq. eauto.
Qed.

Lemma raise_capture_max_frame {C : Type} (proj : TimeGraph -> C) r g :
  (forall v g0, proj (set_capture_max_timestamp_ v g0) = proj g0) ->
  proj (raise_capture_max r g) = proj g.
Proof. intros H. unfold raise_capture_max. destruct (_ <? _); [apply H|reflexivity]. Qed.

(** What [ProcessTimer] does with a core-activity record, whatever function
    accompanies it. *)
Lemma ProcessTimer_core_activity app g r f :
  ti_type r = kCoreActivity ->
  let g' := ProcessTimer app r f g in
  scheduler_track_ g' = OnTimer r <$> scheduler_track_ g
  /\ cores_seen_ g' = {[ti_processor r]} ∪ cores_seen_ g
  /\ thread_count_map_ g' = thread_count_map_ g
  /\ is_Some (thread_tracks_ g' !! ti_thread_id r)
  /\ (forall tid, thread_timers g' tid = thread_timers g tid)
  /\ gpu_tracks_ g' = gpu_tracks_ g.
Proof.
  intros Hty g'. subst g'. rewrite ProcessTimer_stages.
  set (g2 := orbit_function_stage app r f (raise_capture_max r g)).
  assert (Hth : thread_tracks_ g2 = thread_tracks_ g).
  { subst g2. rewrite orbit_stage_thread_tracks. by apply raise_capture_max_frame. }
  assert (Hsch : scheduler_track_ g2 = scheduler_track_ g).
  { subst g2. rewrite orbit_stage_scheduler_track. by apply raise_capture_max_frame. }
  assert (Hco : cores_seen_ g2 = cores_seen_ g).
  { subst g2. rewrite orbit_stage_cores_seen. by apply raise_capture_max_frame. }
  assert (Hcnt : thread_count_map_ g2 = thread_count_map_ g).
  { subst g2. rewrite orbit_stage_thread_count_map. by apply raise_capture_max_frame. }
  assert (Hgpu : gpu_tracks_ g2 = gpu_tracks_ g).
  { subst g2. rewrite orbit_stage_gpu_tracks. by apply raise_capture_max_frame. }
  clearbody g2. unfold route_timer. rewrite Hty. simpl.
  repeat split.
  - rewrite <- Hsch. frame.
  - rewrite <- Hco. frame.
  - rewrite <- Hcnt. frame.
  - apply GetOrCreateThreadTrack_is_Some.
  - intros tid. unfold thread_timers at 1. simpl.
    fold (thread_timers (GetOrCreateThreadTrack (ti_thread_id r) g2) tid).
    rewrite GetOrCreateThreadTrack_timers. unfold thread_timers. by rewrite Hth.
  - rewrite <- Hgpu. frame.
Qed.

(** Without an instrumentation function the graph and async registries are
    not touched by a record that is not GPU activity. *)
Lemma ProcessTimer_no_function_registries app g r :
  ti_type r <> kGpuActivity ->
  graph_tracks_ (ProcessTimer app r None g) = graph_tracks_ g
  /\ async_tracks_ (ProcessTimer app r None g) = async_tracks_ g.
Proof.
  intros _. rewrite ProcessTimer_stages. unfold orbit_function_stage, route_timer.
  split.
  - transitivity (graph_tracks_ (raise_capture_max r g));
      [|by apply raise_capture_max_frame].
    generalize (raise_capture_max r g). intros g1. destruct (ti_type r); frame.
  - transitivity (async_tracks_ (raise_capture_max r g));
      [|by apply raise_capture_max_frame].
    generalize (raise_capture_max r g). intros g1. destruct (ti_type r); frame.
Qed.

(** C9. A core-activity record goes to the scheduler track and its core
    joins the cores seen; the per-thread event count is not touched; the
    get-or-create call still registers a thread track for the record's
    thread id, so one exists afterwards, and no thread track, new or old,
    gains a record: a thread without a track before has an empty one now.
    The GPU tracks are left as they were, and so are the graph and async
    registries when the record comes without an instrumentation function. *)
Theorem core_activity_goes_to_scheduler_only (app : App) (g : TimeGraph)
    (r : TimerInfo) (f : option FunctionInfo) :
  ti_type r = kCoreActivity ->
  let g' := ProcessTimer app r f g in
  scheduler_track_ g' = OnTimer r <$> scheduler_track_ g
  /\ cores_seen_ g' = {[ti_processor r]} ∪ cores_seen_ g
  /\ thread_count_map_ g' = thread_count_map_ g
  /\ is_Some (thread_tracks_ g' !! ti_thread_id r)
  /\ (forall tid, thread_timers g' tid = thread_timers g tid)
  /\ (thread_tracks_ g !! ti_thread_id r = None ->
      IsEmpty <$> (thread_tracks_ g' !! ti_thread_id r) = Some true)
  /\ gpu_tracks_ g' = gpu_tracks_ g
  /\ (f = None ->
      graph_tracks_ g' = graph_tracks_ g /\ async_tracks_ g' = async_tracks_ g).
Proof.
  intros Hty g'.
  destruct (ProcessTimer_core_activity app g r f Hty)
    as (Hsch & Hco & Hcnt & Hsome & Htm & Hgpu).
  fold g' in Hsch, Hco, Hcnt, Hsome, Htm, Hgpu.
  repeat split; try assumption.
  - intros Hnone. specialize (Htm (ti_thread_id r)).
    unfold thread_timers in Htm. rewrite Hnone in Htm.
    destruct Hsome as [t Ht]. rewrite Ht in Htm |- *. simpl.
    unfold IsEmpty. by rewrite Htm.
  - subst f g'. apply ProcessTimer_no_function_registries. by rewrite Hty.
  - subst f g'. apply ProcessTimer_no_function_registries. by rewrite Hty.
Qed.

Lemma core_activity_goes_to_scheduler_only_witness :
  thread_count_map_
    (ProcessTimer idle_app (mkTimerInfo 50 90 3 0 kCoreActivity 2 0 0) None new_TimeGraph)
  = thread_count_map_ new_TimeGraph.
Proof.
  apply (core_activity_goes_to_scheduler_only idle_app new_TimeGraph
           (mkTimerInfo 50 90 3 0 kCoreActivity 2 0 0) None).
  reflexivity.
Defined.

(** ** The ingestion scenario *)

Lemma ProcessTimer_function_span app g r f :
  ti_type r = kFunctionSpan ->
  let g' := ProcessTimer app r f g in
  thread_timers g' (ti_thread_id r) = thread_timers g (ti_thread_id r) ++ [r]
  /\ is_Some (thread_tracks_ g' !! ti_thread_id r)
  /\ cores_seen_ g' = cores_seen_ g.
Proof.
  intros Hty g'. subst g'. rewrite ProcessTimer_stages.
  set (g2 := orbit_function_stage app r f (raise_capture_max r g)).
  assert (Hth : thread_tracks_ g2 = thread_tracks_ g).
  { subst g2. rewrite orbit_stage_thread_tracks. by apply raise_capture_max_frame. }
  assert (Hco : cores_seen_ g2 = cores_seen_ g).
  { subst g2. rewrite orbit_stage_cores_seen. by apply raise_capture_max_frame. }
  clearbody g2. unfold route_timer. rewrite Hty. simpl.
  pose proof (GetOrCreateThreadTrack_is_Some (ti_thread_id r) g2) as [t Ht].
  pose proof (GetOrCreateThreadTrack_timers (ti_thread_id r) (ti_thread_id r) g2) as Htm.
  unfold thread_timers in Htm |- *. rewrite Ht in Htm. simpl.
  rewrite lookup_alter_eq, Ht. simpl. rewrite Hth in Htm. rewrite <- Htm.
  repeat split; [eauto|]. rewrite <- Hco. frame.
Qed.

Ltac unfold_Clear :=
  unfold Clear, NeedsUpdate, GetOrCreateSchedulerTrack;
  cbn [scheduler_track_ set_scheduler_track_ set_thread_tracks_ set_gpu_tracks_
       set_graph_tracks_ set_async_tracks_ set_cores_seen_];
  unfold GetOrCreateThreadTrack;
  cbn [thread_tracks_ set_scheduler_track_ set_tracks_ set_thread_tracks_
       set_gpu_tracks_ set_graph_tracks_ set_async_tracks_ set_cores_seen_];
  rewrite lookup_empty.

Lemma Clear_thread_tracks g0 :
  thread_tracks_ (Clear g0)
  = <[kAllThreadsFakeTid := SetTrackColor (GetThreadColor kAllThreadsFakeTid) new_track]> ∅.
Proof. unfold_Clear. reflexivity. Qed.

Lemma Clear_cores_seen g0 : cores_seen_ (Clear g0) = ∅.
Proof. unfold_Clear. reflexivity. Qed.

Lemma Clear_capture_extent g0 :
  capture_min_timestamp_ (Clear g0) = kUint64Max
  /\ capture_max_timestamp_ (Clear g0) = 0.
Proof. unfold_Clear. split; reflexivity. Qed.

(** C5. Into a cleared engine, deliver a function span (start 100, end 200,
    thread 7, depth 0) and then a core-activity record (start 50, end 90,
    core 2): the capture maximum is 200, the thread track of thread 7 holds
    exactly the span, and the cores seen are exactly core 2. The fields the
    scenario leaves open, the engine that was cleared and the function
    passed with each record are arbitrary. *)
Theorem ingest_span_then_core_activity (g0 : TimeGraph) (app1 app2 : App)
    (f1 f2 : option FunctionInfo) (p1 h1 a1 tid2 d2 h2 a2 : Z) :
  let span := mkTimerInfo 100 200 7 0 kFunctionSpan p1 h1 a1 in
  let core := mkTimerInfo 50 90 tid2 d2 kCoreActivity 2 h2 a2 in
  let g := ProcessTimer app2 core f2 (ProcessTimer app1 span f1 (Clear g0)) in
  capture_max_timestamp_ g = 200
  /\ timers_ <$> (thread_tracks_ g !! 7) = Some [span]
  /\ cores_seen_ g = {[2]}.
Proof.
  intros span core g.
  destruct (ProcessTimer_function_span app1 (Clear g0) span f1 eq_refl)
    as (Htm1 & _ & Hco1).
  destruct (ProcessTimer_core_activity app2 (ProcessTimer app1 span f1 (Clear g0))
              core f2 eq_refl) as (_ & Hco2 & _ & _ & Htm2 & _).
  fold g in Hco2, Htm2.
  split; [|split].
  - subst g. rewrite !ProcessTimer_capture_max.
    destruct (Clear_capture_extent g0) as [_ ->]. reflexivity.
  - specialize (Htm2 7). change (ti_thread_id span) with 7 in Htm1.
    rewrite Htm1 in Htm2.
    assert (Hclear : thread_timers (Clear g0) 7 = []).
    { unfold thread_timers. rewrite Clear_thread_tracks.
      by rewrite lookup_insert_ne. }
    rewrite Hclear in Htm2. unfold thread_timers in Htm2.
    destruct (thread_tracks_ g !! 7) as [t|]; [|discriminate].
    simpl. by rewrite Htm2.
  - rewrite Hco2, Hco1, Clear_cores_seen. change (ti_processor core) with 2.
    set_solver.
Qed.

(** ** Zoom *)

(** C6, as the code has it. When the window [ZoomTime] computes is narrower
    than one nanosecond the visible window and everything else are left
    alone, except the three members written before the test: the zoom value
    and the mouse ratio are recorded and the reference time is recomputed. *)
Theorem degenerate_zoom_keeps_window (app : App) (g : TimeGraph)
    (a_ZoomValue : float32) (a_MouseRatio : double) :
  zoom_is_degenerate a_ZoomValue a_MouseRatio g = true ->
  ZoomTime app a_ZoomValue a_MouseRatio g
  = set_ref_time_us_
      (D.add (min_time_us_ g) (D.mul a_MouseRatio (GetCurrentTimeSpanUs g)))
      (set_mouse_ratio_ a_MouseRatio (set_zoom_value_ a_ZoomValue g))
  /\ window (ZoomTime app a_ZoomValue a_MouseRatio g) = window g.
Proof.
  unfold zoom_is_degenerate, zoomed_window, ZoomTime, GetCurrentTimeSpanUs, window.
  cbn [min_time_us_ max_time_us_ ref_time_us_ set_zoom_value_ set_mouse_ratio_
       set_ref_time_us_].
  intros ->. split; reflexivity.
Qed.

Lemma degenerate_zoom_keeps_window_witness :
  window (ZoomTime idle_app (F.of_Z (-1)) (D.div (D.of_Z 1) (D.of_Z 2)) narrow_graph)
  = window narrow_graph.
Proof.
  apply (degenerate_zoom_keeps_window idle_app narrow_graph (F.of_Z (-1))
           (D.div (D.of_Z 1) (D.of_Z 2))).
  vm_compute. reflexivity.
Defined.

(** C6 as stated fails: a rejected zoom still changes the engine state. On a
    window half a nanosecond wide, zooming in at the middle is rejected, yet
    the engine afterwards differs from the engine before (its recorded zoom
    value became -1). *)
Lemma degenerate_zoom_changes_state :
  zoom_is_degenerate (F.of_Z (-1)) (D.div (D.of_Z 1) (D.of_Z 2)) narrow_graph = true
  /\ ZoomTime idle_app (F.of_Z (-1)) (D.div (D.of_Z 1) (D.of_Z 2)) narrow_graph
     <> narrow_graph.
Proof.
  split; [vm_compute; reflexivity|].
  intros H. apply (f_equal zoom_value_) in H. vm_compute in H. discriminate.
Qed.


(** ** Rounding: what [binary_round_aux] does to a mantissa *)

Lemma iter_pos_Pos_iter {A} (f : A -> A) p : forall x,
  SpecFloat.iter_pos f p x = Pos.iter f x p.
Proof.
  induction p as [p IH|p IH|]; intros x; simpl.
  - rewrite !IH. rewrite Pos.iter_swap. rewrite Pos.iter_swap. reflexivity.
  - rewrite !IH. reflexivity.
  - reflexivity.
Qed.

Lemma shr_1_spec m r s :
  0 <= m ->
  shr_1 {| shr_m := m; shr_r := r; shr_s := s |}
  = {| shr_m := m / 2; shr_r := Z.odd m; shr_s := r || s |}.
Proof.
  intros Hm. rewrite <- Z.div2_div.
  destruct m as [|[p|p|]|]; try reflexivity. lia.
Qed.

Lemma mod_pow2_succ m k :
  0 <= k ->
  (m mod 2 ^ (k + 1) =? 0) = (m mod 2 ^ k =? 0) && Z.even (m / 2 ^ k).
Proof.
  intros Hk. rewrite Z.pow_add_r by lia. change (2 ^ 1) with 2.
  assert (Hp : 0 < 2 ^ k) by (apply Z.pow_pos_nonneg; lia).
  rewrite Z.rem_mul_r by lia.
  pose proof (Z.mod_pos_bound m (2 ^ k) Hp) as Hb.
  pose proof (Z.mod_pos_bound (m / 2 ^ k) 2 ltac:(lia)) as Hc.
  rewrite (Zeven_mod (m / 2 ^ k)).
  destruct (Z.eqb_spec (m mod 2 ^ k) 0) as [E0|N0];
    destruct (Z.eqb_spec ((m / 2 ^ k) mod 2) 0) as [E1|N1]; simpl;
    apply Z.eqb_eq || apply Z.eqb_neq; try nia.
Qed.

Lemma shr_iter_spec p m :
  0 <= m ->
  Pos.iter shr_1 {| shr_m := m; shr_r := false; shr_s := false |} p
  = {| shr_m := m / 2 ^ Zpos p;
       shr_r := Z.odd (m / 2 ^ (Zpos p - 1));
       shr_s := negb (m mod 2 ^ (Zpos p - 1) =? 0) |}.
Proof.
  intros Hm. induction p as [|p IH] using Pos.peano_ind.
  - cbn [Pos.iter]. rewrite shr_1_spec by assumption.
    change (2 ^ (1 - 1)) with 1. rewrite Z.div_1_r, Z.mod_1_r. reflexivity.
  - rewrite Pos.iter_succ, IH.
    assert (Hp : 0 < 2 ^ Zpos p) by (apply Z.pow_pos_nonneg; lia).
    rewrite shr_1_spec by (apply Z.div_pos; lia).
    rewrite Pos2Z.inj_succ.
    replace (Z.succ (Zpos p) - 1) with (Zpos p) by lia.
    rewrite Z.pow_succ_r by lia.
    rewrite Z.div_div by lia. rewrite (Z.mul_comm (2 ^ Zpos p) 2).
    f_equal.
    replace (Zpos p) with (Zpos p - 1 + 1) at 3 by lia.
    rewrite mod_pow2_succ by lia.
    rewrite negb_andb, <- Z.negb_even, orb_comm. reflexivity.
Qed.

(** The mantissa after a shift by [p] bits and rounding to nearest even is
    within half a unit of the shifted value. *)
Lemma round_shift_spec p m :
  0 <= m ->
  let st := Pos.iter shr_1 {| shr_m := m; shr_r := false; shr_s := false |} p in
  let M := round_nearest_even (shr_m st) (loc_of_shr_record st) in
  m / 2 ^ Zpos p <= M <= m / 2 ^ Zpos p + 1
  /\ 2 * (M * 2 ^ Zpos p) <= 2 * m + 2 ^ Zpos p
  /\ 2 * m <= 2 * (M * 2 ^ Zpos p) + 2 ^ Zpos p.
Proof.
  intros Hm st M. subst M st. rewrite shr_iter_spec by assumption.
  cbn [shr_m loc_of_shr_record].
  set (h := 2 ^ (Zpos p - 1)).
  assert (Hh : 0 < h) by (apply Z.pow_pos_nonneg; lia).
  assert (E2 : 2 ^ Zpos p = 2 * h).
  { unfold h. rewrite <- Z.pow_succ_r by lia. f_equal. lia. }
  rewrite E2.
  pose proof (Z.div_mod m h ltac:(lia)) as Em.
  pose proof (Z.mod_pos_bound m h Hh) as Hb.
  set (a := m / h) in *. set (b := m mod h) in *.
  assert (Ha : 0 <= a) by (apply Z.div_pos; lia).
  assert (Eq : m / (2 * h) = a / 2).
  { rewrite (Z.mul_comm 2 h), <- Z.div_div by lia. reflexivity. }
  rewrite Eq.
  pose proof (Z.div_mod a 2 ltac:(lia)) as Ea.
  pose proof (Z.mod_pos_bound a 2 ltac:(lia)) as Hc.
  rewrite (Zodd_mod a).
  set (q := a / 2) in *. set (c := a mod 2) in *.
  assert (Emq : m = 2 * (q * h) + c * h + b) by nia.
  destruct (Z.eqb_spec c 1) as [C1|C0]; destruct (Z.eqb_spec b 0) as [B0|B1];
    cbn [negb round_nearest_even]; try destruct (Z.even q); nia.
Qed.

Lemma digits2_pos_bounds p :
  2 ^ (Zpos (digits2_pos p) - 1) <= Zpos p < 2 ^ Zpos (digits2_pos p).
Proof.
  induction p as [p IH|p IH|]; cbn [digits2_pos].
  - rewrite Pos2Z.inj_succ. replace (Z.succ (Zpos (digits2_pos p)) - 1)
      with (Z.succ (Zpos (digits2_pos p) - 1)) by lia.
    rewrite !Z.pow_succ_r by lia. lia.
  - rewrite Pos2Z.inj_succ. replace (Z.succ (Zpos (digits2_pos p)) - 1)
      with (Z.succ (Zpos (digits2_pos p) - 1)) by lia.
    rewrite !Z.pow_succ_r by lia. lia.
  - change (2 ^ (1 - 1)) with 1. change (2 ^ 1) with 2. lia.
Qed.

Lemma Zdigits2_unique m k :
  0 < m -> 2 ^ (k - 1) <= m < 2 ^ k -> Zdigits2 m = k.
Proof.
  intros Hm Hk. destruct m as [|p|p]; try lia. cbn [Zdigits2].
  pose proof (digits2_pos_bounds p) as Hd.
  assert (0 < k).
  { destruct (Z.ltb_spec 0 k); [assumption|].
    destruct Hk as [_ Hk]. destruct k; try lia.
    rewrite Z.pow_neg_r in Hk by lia. lia. }
  assert (Zpos (digits2_pos p) - 1 < k).
  { apply (Z.pow_lt_mono_r_iff 2); lia. }
  assert (k - 1 < Zpos (digits2_pos p)).
  { apply (Z.pow_lt_mono_r_iff 2); lia. }
  lia.
Qed.

Lemma fexp_normal k e : -1074 <= k + e - 53 -> fexp 53 1024 (k + e) - e = k - 53.
Proof. unfold fexp, emin. intros H. rewrite Z.max_l by lia. lia. Qed.

Lemma pow2_pos k : 0 <= k -> 0 < 2 ^ k.
Proof. intros H. apply Z.pow_pos_nonneg; lia. Qed.

(** A mantissa of exactly 53 bits is kept as it is. *)
Lemma binary_round_aux_exact sx m e :
  2 ^ 52 <= m < 2 ^ 53 -> -1074 <= e <= 971 ->
  binary_round_aux 53 1024 sx m e loc_Exact = S754_finite sx (Z.to_pos m) e.
Proof.
  intros Hm He. unfold binary_round_aux, shr_fexp.
  assert (Hpos : 0 < m) by (change (2 ^ 52) with 4503599627370496 in Hm; lia).
  rewrite (Zdigits2_unique m 53) by (try assumption; exact Hm).
  rewrite fexp_normal by lia. cbn [Z.sub Z.add Z.opp Z.pos_sub shr shr_record_of_loc].
  change (53 - 53) with 0. cbn [shr shr_m loc_of_shr_record round_nearest_even].
  rewrite (Zdigits2_unique m 53) by (try assumption; exact Hm).
  rewrite fexp_normal by lia. change (53 - 53) with 0. cbn [shr shr_m shr_record_of_loc].
  destruct m as [|p|p]; try lia.
  replace (e <=? 1024 - 53) with true by (symmetry; apply Z.leb_le; lia).
  reflexivity.
Qed.

(** A longer mantissa is shifted down to 53 bits and rounded: the result is
    within half a unit in the last place of the exact value. *)
Lemma binary_round_aux_shift sx m e k :
  2 ^ (k - 1) <= m < 2 ^ k -> 53 < k ->
  -1074 <= e + (k - 53) -> e + (k - 53) + 1 <= 971 ->
  exists M E,
    binary_round_aux 53 1024 sx m e loc_Exact = S754_finite sx (Z.to_pos M) E
    /\ 2 ^ 52 <= M < 2 ^ 53
    /\ ((E = e + (k - 53)
         /\ 2 * (M * 2 ^ (k - 53)) <= 2 * m + 2 ^ (k - 53)
         /\ 2 * m <= 2 * (M * 2 ^ (k - 53)) + 2 ^ (k - 53))
        \/ (E = e + (k - 53) + 1 /\ M = 2 ^ 52
            /\ 2 * (2 ^ 53 * 2 ^ (k - 53)) <= 2 * m + 2 ^ (k - 53))).
Proof.
  intros Hm Hk Hlo Hhi.
  assert (Hpos : 0 < m).
  { pose proof (pow2_pos (k - 1) ltac:(lia)). lia. }
  unfold binary_round_aux, shr_fexp.
  rewrite (Zdigits2_unique m k) by assumption.
  rewrite fexp_normal by lia. cbn [shr_record_of_loc].
  destruct (k - 53) as [|s|s] eqn:Es; try lia.
  cbn [shr]. rewrite iter_pos_Pos_iter.
  pose proof (round_shift_spec s m ltac:(lia)) as Hr. cbn zeta in Hr.
  set (st := Pos.iter shr_1 {| shr_m := m; shr_r := false; shr_s := false |} s) in *.
  set (M0 := round_nearest_even (shr_m st) (loc_of_shr_record st)) in *.
  destruct Hr as (Hq & Hup & Hdn).
  assert (Hs : 0 < 2 ^ Zpos s) by (apply pow2_pos; lia).
  assert (Ek1 : 2 ^ (k - 1) = 2 ^ 52 * 2 ^ Zpos s).
  { rewrite <- Z.pow_add_r by lia. f_equal. lia. }
  assert (Ek : 2 ^ k = 2 ^ 53 * 2 ^ Zpos s).
  { rewrite <- Z.pow_add_r by lia. f_equal. lia. }
  assert (Hq1 : 2 ^ 52 <= m / 2 ^ Zpos s).
  { apply Z.div_le_lower_bound; [assumption|]. rewrite Z.mul_comm. lia. }
  assert (Hq2 : m / 2 ^ Zpos s < 2 ^ 53).
  { apply Z.div_lt_upper_bound; [assumption|]. rewrite Z.mul_comm. lia. }
  destruct (Z.ltb_spec M0 (2 ^ 53)) as [Hlt|Hge].
  - exists M0, (e + Zpos s).
    assert (HM0 : 2 ^ 52 <= M0 < 2 ^ 53) by lia.
    rewrite (Zdigits2_unique M0 53)
      by (try exact HM0; change (2 ^ 52) with 4503599627370496 in HM0; lia).
    rewrite fexp_normal by lia. change (53 - 53) with 0.
    cbn [shr shr_m shr_record_of_loc].
    destruct M0 as [|p|p] eqn:EM0;
      try (change (2 ^ 52) with 4503599627370496 in HM0; lia).
    replace (e + Zpos s <=? 1024 - 53) with true by (symmetry; apply Z.leb_le; lia).
    split; [reflexivity|]. split; [exact HM0|]. left. lia.
  - exists (2 ^ 52), (e + Zpos s + 1).
    assert (EM : M0 = 2 ^ 53) by lia. rewrite EM.
    rewrite (Zdigits2_unique (2 ^ 53) 54) by (first [vm_compute; split; [discriminate|reflexivity] | lia]).
    rewrite fexp_normal by lia. change (54 - 53) with 1.
    cbn [shr shr_record_of_loc].
    change (shr_m (SpecFloat.iter_pos shr_1 1
                     {| shr_m := 2 ^ 53; shr_r := false; shr_s := false |}))
      with (Zpos (Z.to_pos (2 ^ 52))).
    replace (e + Zpos s + 1 <=? 1024 - 53) with true by (symmetry; apply Z.leb_le; lia).
    split; [reflexivity|]. split; [vm_compute; split; [discriminate|reflexivity]|].
    right. split; [reflexivity|]. split; [reflexivity|]. rewrite EM in Hup. lia.
Qed.

Lemma Pos_iter_xO p d : Zpos (Pos.iter xO p d) = Zpos p * 2 ^ Zpos d.
Proof.
  induction d as [|d IH] using Pos.peano_ind.
  - cbn [Pos.iter]. change (2 ^ 1) with 2. lia.
  - rewrite Pos.iter_succ, Pos2Z.inj_xO, IH, Pos2Z.inj_succ, Z.pow_succ_r by lia. lia.
Qed.

(** The conversion of an integer below 2^53 is exact: its bits, shifted up
    to a 53-bit mantissa. *)
Lemma of_Z_normal d k :
  1 <= k <= 53 -> 2 ^ (k - 1) <= d < 2 ^ k ->
  D.of_Z d = S754_finite false (Z.to_pos (d * 2 ^ (53 - k))) (k - 53).
Proof.
  intros Hk Hd.
  assert (Hpos : 0 < d).
  { pose proof (pow2_pos (k - 1) ltac:(lia)). lia. }
  destruct d as [|p|p]; try lia.
  unfold D.of_Z, binary_normalize, binary_round.
  assert (Edig : Zpos (digits2_pos p) = k).
  { apply (Zdigits2_unique (Zpos p) k); assumption. }
  rewrite Edig. unfold D.prec, D.emax.
  assert (Ef : fexp 53 1024 (k + 0) = k - 53).
  { pose proof (fexp_normal k 0 ltac:(lia)). lia. }
  rewrite Ef. unfold shl_align.
  assert (Hp53 : 0 < 2 ^ (53 - k)) by (apply pow2_pos; lia).
  assert (Hm : 2 ^ 52 <= Zpos p * 2 ^ (53 - k) < 2 ^ 53).
  { replace (2 ^ 52) with (2 ^ (k - 1) * 2 ^ (53 - k))
      by (rewrite <- Z.pow_add_r by lia; f_equal; lia).
    replace (2 ^ 53) with (2 ^ k * 2 ^ (53 - k))
      by (rewrite <- Z.pow_add_r by lia; f_equal; lia).
    nia. }
  destruct (k - 53 - 0) as [|dd|dd] eqn:Edd; try lia.
  - assert (k = 53) by lia. clear Edig. subst k. change (2 ^ (53 - 53)) with 1 in *.
    rewrite Z.mul_1_r in *. change (53 - 53) with 0.
    apply binary_round_aux_exact; [exact Hm|lia].
  - assert (E53 : 53 - k = Zpos dd) by lia. rewrite E53 in *.
    rewrite Pos_iter_xO. apply binary_round_aux_exact; [exact Hm|lia].
Qed.

Lemma lit_0_001_eq : D.lit_0_001 = S754_finite false 4611686018427388 (-62).
Proof. vm_compute. reflexivity. Qed.

Lemma lit_1000_eq : D.lit_1000 = S754_finite false 8796093022208000 (-43).
Proof. vm_compute. reflexivity. Qed.

Ltac pow_lits :=
  repeat match goal with
  | H : context [2 ^ ?n] |- _ =>
      let v := eval vm_compute in (2 ^ n) in
      match v with
      | Zpos _ => change (2 ^ n) with v in H
      end
  | |- context [2 ^ ?n] =>
      let v := eval vm_compute in (2 ^ n) in
      match v with
      | Zpos _ => change (2 ^ n) with v
      end
  end.

Ltac finish_scaled M2 HR2 tval :=
  exists M2, tval; split; [rewrite HR2; f_equal; lia|];
  split; [lia|]; split; [lia|];
  let v := eval vm_compute in (2 ^ (tval + 1)) in
  change (2 ^ (tval + 1)) with v; lia.

(** Microseconds and back on a 53-bit mantissa: multiplying by 0.001 and
    then by 1000 returns the mantissa to within one unit. *)
Lemma scaled_round_trip Dm e :
  2 ^ 52 <= Dm < 2 ^ 53 -> -52 <= e <= 0 ->
  exists M t,
    D.mul D.lit_1000
      (D.sub (D.mul (S754_finite false (Z.to_pos Dm) e) D.lit_0_001) D.zero)
    = S754_finite false (Z.to_pos M) (e + t)
    /\ 0 < M /\ -1 <= t <= 1
    /\ 2 * (Dm - 1) <= M * 2 ^ (t + 1) <= 2 * (Dm + 1).
Proof.
  intros HD He. rewrite lit_0_001_eq, lit_1000_eq.
  unfold D.mul, D.sub, D.zero, D.prec, D.emax.
  cbn [SFmul xorb]. rewrite Pos2Z.inj_mul. rewrite Z2Pos.id by (pow_lits; lia).
  set (N1 := Dm * 4611686018427388).
  assert (HN1 : 2 ^ 104 <= N1 < 2 ^ 106) by (subst N1; pow_lits; lia).
  assert (H1 : exists M1 E1,
             binary_round_aux 53 1024 false N1 (e + -62) loc_Exact
             = S754_finite false (Z.to_pos M1) E1
             /\ 2 ^ 52 <= M1 < 2 ^ 53
             /\ ((E1 = e - 10 /\ N1 < 2 ^ 105
                  /\ 2 * (M1 * 2 ^ 52) <= 2 * N1 + 2 ^ 52
                  /\ 2 * N1 <= 2 * (M1 * 2 ^ 52) + 2 ^ 52)
                 \/ (E1 = e - 9 /\ 2 ^ 105 <= N1
                     /\ 2 * (M1 * 2 ^ 53) <= 2 * N1 + 2 ^ 53
                     /\ 2 * N1 <= 2 * (M1 * 2 ^ 53) + 2 ^ 53))).
  { destruct (Z.ltb_spec N1 (2 ^ 105)) as [Hlt|Hge].
    - destruct (binary_round_aux_shift false N1 (e + -62) 105) as (M & E & HR & HM & Hc);
        [change (105 - 1) with 104; lia|lia|lia|lia|].
      change (105 - 53) with 52 in Hc. exists M, E. split; [exact HR|]. split; [exact HM|].
      destruct Hc as [(HE & Ha & Hb)|(HE & HM2 & Ha)].
      + left. repeat split; try assumption; lia.
      + right. subst M. pow_lits. lia.
    - destruct (binary_round_aux_shift false N1 (e + -62) 106) as (M & E & HR & HM & Hc);
        [change (106 - 1) with 105; lia|lia|lia|lia|].
      change (106 - 53) with 53 in Hc. exists M, E. split; [exact HR|]. split; [exact HM|].
      destruct Hc as [(HE & Ha & Hb)|(HE & HM2 & Ha)].
      + right. repeat split; try assumption; lia.
      + exfalso. subst N1. pow_lits. lia. }
  destruct H1 as (M1 & E1 & HR1 & HM1 & Hc1). rewrite HR1.
  cbn [SFsub SFmul xorb]. rewrite Pos2Z.inj_mul. rewrite Z2Pos.id by (pow_lits; lia).
  set (N2 := 8796093022208000 * M1).
  assert (HN2 : 2 ^ 104 <= N2 < 2 ^ 106) by (subst N2; pow_lits; lia).
  destruct (Z.ltb_spec N2 (2 ^ 105)) as [Hlt|Hge].
  - destruct (binary_round_aux_shift false N2 (-43 + E1) 105) as (M2 & E2 & HR2 & HM2 & Hc2);
      [change (105 - 1) with 104; lia|lia|lia|lia|].
    change (105 - 53) with 52 in Hc2. subst N1 N2. pow_lits.
    destruct Hc1 as [Hc1|Hc1]; destruct Hc2 as [Hc2|Hc2];
      first [ exfalso; lia
            | finish_scaled M2 HR2 (-1)
            | finish_scaled M2 HR2 0
            | finish_scaled M2 HR2 1 ].
  - destruct (binary_round_aux_shift false N2 (-43 + E1) 106) as (M2 & E2 & HR2 & HM2 & Hc2);
      [change (106 - 1) with 105; lia|lia|lia|lia|].
    change (106 - 53) with 53 in Hc2. subst N1 N2. pow_lits.
    destruct Hc1 as [Hc1|Hc1]; destruct Hc2 as [Hc2|Hc2];
      first [ exfalso; lia
            | finish_scaled M2 HR2 (-1)
            | finish_scaled M2 HR2 0
            | finish_scaled M2 HR2 1 ].
Qed.


Lemma to_uint64_finite M E :
  0 < M ->
  D.to_uint64 (S754_finite false (Z.to_pos M) E)
  = let v := if E <? 0 then M / 2 ^ (- E) else M * 2 ^ E in
    if v <=? kUint64Max then Some v else None.
Proof.
  intros HM. unfold D.to_uint64. rewrite Z2Pos.id by assumption.
  destruct E as [|p|p].
  - cbn [Z.ltb Z.compare]. rewrite Z.shiftl_mul_pow2 by lia. reflexivity.
  - cbn [Z.ltb Z.compare]. rewrite Z.shiftl_mul_pow2 by lia. reflexivity.
  - cbn [Z.ltb Z.compare Z.opp]. rewrite Z.shiftr_div_pow2 by lia. reflexivity.
Qed.

Lemma div_within Q M d :
  0 < Q -> Q * (d - 1) <= M -> M < Q * (d + 2) -> d - 1 <= M / Q <= d + 1.
Proof.
  intros HQ H1 H2. split.
  - apply Z.div_le_lower_bound; assumption.
  - assert (M / Q < d + 2); [|lia]. apply Z.div_lt_upper_bound; assumption.
Qed.

(** With the window at zero, an offset below 2^53 ticks comes back to
    within one tick. *)
Lemma round_trip_offset_within_one d :
  0 <= d < 2 ^ 53 ->
  exists n, round_trip_offset d = Some n /\ 0 <= n /\ d - 1 <= n <= d + 1.
Proof.
  intros Hd. destruct (Z.eq_dec d 0) as [->|Hne].
  { exists 0. split; [vm_compute; reflexivity|lia]. }
  assert (Hpos : 0 < d) by lia.
  pose proof (Z.log2_spec d Hpos) as Hlog.
  pose proof (Z.log2_nonneg d) as Hl0.
  set (k := Z.log2 d + 1).
  assert (Hk : 2 ^ (k - 1) <= d < 2 ^ k).
  { unfold k. replace (Z.log2 d + 1 - 1) with (Z.log2 d) by lia.
    replace (Z.log2 d + 1) with (Z.succ (Z.log2 d)) by lia. exact Hlog. }
  assert (Hk53 : 1 <= k <= 53).
  { split; [unfold k; lia|].
    assert (k - 1 < 53); [|lia].
    apply (Z.pow_lt_mono_r_iff 2); lia. }
  unfold round_trip_offset. rewrite (of_Z_normal d k Hk53 Hk).
  set (j := 53 - k). set (P := 2 ^ j).
  assert (Hj : 0 <= j <= 52) by (unfold j; lia).
  assert (HP : 0 < P) by (apply pow2_pos; lia).
  assert (HDm : 2 ^ 52 <= d * P < 2 ^ 53).
  { unfold P, j.
    replace (2 ^ 52) with (2 ^ (k - 1) * 2 ^ (53 - k))
      by (rewrite <- Z.pow_add_r by lia; f_equal; lia).
    replace (2 ^ 53) with (2 ^ k * 2 ^ (53 - k))
      by (rewrite <- Z.pow_add_r by lia; f_equal; lia).
    pose proof (pow2_pos (53 - k) ltac:(lia)). nia. }
  destruct (scaled_round_trip (d * P) (k - 53) HDm ltac:(lia))
    as (M & t & HR & HM & Ht & Hb).
  rewrite HR, to_uint64_finite by assumption. cbn zeta.
  assert (Ej : k - 53 = - j) by (unfold j; lia). rewrite Ej.
  assert (Hv : exists v,
             (if - j + t <? 0 then M / 2 ^ (- (- j + t)) else M * 2 ^ (- j + t)) = v
             /\ 0 <= v /\ d - 1 <= v <= d + 1).
  { assert (Hcases : t = -1 \/ t = 0 \/ t = 1) by lia.
    destruct (Z.ltb_spec (- j + t) 0) as [Hneg|Hnn].
    - eexists. split; [reflexivity|].
      assert (HQ : 0 < 2 ^ (- (- j + t))) by (apply pow2_pos; lia).
      split; [apply Z.div_pos; lia|].
      apply div_within; [exact HQ| |];
        destruct Hcases as [->|[->| ->]].
      + replace (- (- j + -1)) with (j + 1) by lia.
        rewrite Z.pow_add_r by lia. fold P. change (2 ^ 1) with 2.
        change (2 ^ (-1 + 1)) with 1 in Hb. nia.
      + replace (- (- j + 0)) with j by lia. fold P.
        change (2 ^ (0 + 1)) with 2 in Hb.
        assert (2 <= P).
        { unfold P. replace j with (1 + (j - 1)) by lia.
          rewrite Z.pow_add_r by lia. change (2 ^ 1) with 2.
          pose proof (pow2_pos (j - 1) ltac:(lia)). lia. }
        nia.
      + replace (- (- j + 1)) with (j - 1) by lia.
        change (2 ^ (1 + 1)) with 4 in Hb.
        assert (EP : P = 2 * 2 ^ (j - 1)).
        { unfold P. replace j with (1 + (j - 1)) at 1 by lia.
          rewrite Z.pow_add_r by lia. reflexivity. }
        pose proof (pow2_pos (j - 1) ltac:(lia)). nia.
      + replace (- (- j + -1)) with (j + 1) by lia.
        rewrite Z.pow_add_r by lia. fold P. change (2 ^ 1) with 2.
        change (2 ^ (-1 + 1)) with 1 in Hb. nia.
      + replace (- (- j + 0)) with j by lia. fold P.
        change (2 ^ (0 + 1)) with 2 in Hb.
        assert (2 <= P).
        { unfold P. replace j with (1 + (j - 1)) by lia.
          rewrite Z.pow_add_r by lia. change (2 ^ 1) with 2.
          pose proof (pow2_pos (j - 1) ltac:(lia)). lia. }
        nia.
      + replace (- (- j + 1)) with (j - 1) by lia.
        change (2 ^ (1 + 1)) with 4 in Hb.
        assert (EP : P = 2 * 2 ^ (j - 1)).
        { unfold P. replace j with (1 + (j - 1)) at 1 by lia.
          rewrite Z.pow_add_r by lia. reflexivity. }
        pose proof (pow2_pos (j - 1) ltac:(lia)). nia.
    - eexists. split; [reflexivity|].
      assert (Hjt : (j = 0 /\ t = 0) \/ (j = 0 /\ t = 1) \/ (j = 1 /\ t = 1)) by lia.
      destruct Hjt as [[Hj0 ->]|[[Hj0 ->]|[Hj1 ->]]].
      + unfold P in *. rewrite Hj0 in *. change (2 ^ (-0 + 0)) with 1.
        change (2 ^ 0) with 1 in Hb. change (2 ^ (0 + 1)) with 2 in Hb. lia.
      + unfold P in *. rewrite Hj0 in *. change (2 ^ (-0 + 1)) with 2.
        change (2 ^ 0) with 1 in Hb. change (2 ^ (1 + 1)) with 4 in Hb. lia.
      + unfold P in *. rewrite Hj1 in *. change (2 ^ (-(1) + 1)) with 1.
        change (2 ^ 1) with 2 in Hb. change (2 ^ (1 + 1)) with 4 in Hb. lia. }
  destruct Hv as (v & -> & Hv0 & Hv).
  exists v. replace (v <=? kUint64Max) with true; [auto|].
  symmetry. apply Z.leb_le. unfold kUint64Max.
  change (2 ^ 53) with 9007199254740992 in Hd.
  change (2 ^ 64) with 18446744073709551616. lia.
Qed.

(** ** Tick and microsecond round trip *)

Ltac norm64 :=
  unfold kUint64Max in *;
  change (2 ^ 64) with 18446744073709551616 in *.

Lemma round_trip_unfold g t :
  min_time_us_ g = D.zero ->
  0 <= t - capture_min_timestamp_ g < 2 ^ 64 ->
  round_trip g t
  = n ← round_trip_offset (t - capture_min_timestamp_ g);
    Some (wrap64 (capture_min_timestamp_ g + n)).
Proof.
  intros Hmin Ht. unfold round_trip, GetTickFromUs, GetUsFromTick, round_trip_offset,
    TicksToMicroseconds, wrap64.
  rewrite Hmin, (Z.mod_small (t - _)) by lia. reflexivity.
Qed.

(** C3, as the code has it. [GetUsFromTick] is relative to the start of the
    visible window and [GetTickFromUs] to the start of the capture, so they
    invert each other only when the window starts at zero. Then every tick
    of the capture extent less than 2^53 ticks after the capture start (the
    integers a double holds exactly; about 104 days of nanoseconds), other
    than the last tick a [uint64_t] holds, comes back as a tick at most one
    tick away; the scenario tick 1,050,000 with the capture starting at
    1,000,000 comes back exactly. *)
Theorem round_trip_when_window_at_zero (g : TimeGraph) (t : Z) :
  min_time_us_ g = D.zero ->
  0 <= capture_min_timestamp_ g ->
  capture_min_timestamp_ g <= t <= capture_max_timestamp_ g ->
  t - capture_min_timestamp_ g < 2 ^ 53 ->
  t < kUint64Max ->
  round_trip_within_one g t
  /\ (capture_min_timestamp_ g = 1000000 -> round_trip g 1050000 = Some 1050000).
Proof.
  intros Hmin Hc0 Ht Hspan Hmax. split.
  - destruct (round_trip_offset_within_one (t - capture_min_timestamp_ g))
      as (n & Hn & Hn0 & Hnd); [lia|].
    exists (capture_min_timestamp_ g + n). split; [|lia].
    rewrite round_trip_unfold; [|assumption|].
    + rewrite Hn. cbn. f_equal. apply Z.mod_small. norm64. lia.
    + change (2 ^ 53) with 9007199254740992 in Hspan.
      change (2 ^ 64) with 18446744073709551616. lia.
  - intros Hc. rewrite round_trip_unfold; [|assumption|rewrite ?Hc; norm64; lia].
    rewrite Hc. vm_compute. reflexivity.
Qed.

Lemma round_trip_when_window_at_zero_witness :
  round_trip_within_one (set_min_time_us_ D.zero offset_graph) 1050000.
Proof.
  apply (round_trip_when_window_at_zero (set_min_time_us_ D.zero offset_graph) 1050000).
  - reflexivity.
  - vm_compute. discriminate.
  - vm_compute. split; discriminate.
  - vm_compute. reflexivity.
  - vm_compute. reflexivity.
Defined.

(** C3 as stated fails, in three ways. With the capture starting at tick
    1,000,000 and the window at 5 us, tick 1,050,000 lies inside the capture
    extent and comes back as 1,045,000. With the window at zero, a tick
    2^53 + 42 ticks after the capture start comes back two ticks later.
    And the last tick a [uint64_t] holds, 2^52 + 21 ticks after the capture
    start, comes back one tick later, which wraps around to tick 0. *)
Lemma round_trip_off_by_window_start :
  (capture_min_timestamp_ offset_graph <= 1050000 <= capture_max_timestamp_ offset_graph
   /\ round_trip offset_graph 1050000 = Some 1045000
   /\ ~ round_trip_within_one offset_graph 1050000)
  /\ (min_time_us_ long_capture_graph = D.zero
      /\ capture_min_timestamp_ long_capture_graph <= 1000 + (2 ^ 53 + 42)
           <= capture_max_timestamp_ long_capture_graph
      /\ round_trip long_capture_graph (1000 + (2 ^ 53 + 42))
         = Some (1000 + (2 ^ 53 + 44))
      /\ ~ round_trip_within_one long_capture_graph (1000 + (2 ^ 53 + 42)))
  /\ (min_time_us_ late_capture_graph = D.zero
      /\ capture_min_timestamp_ late_capture_graph <= kUint64Max
           <= capture_max_timestamp_ late_capture_graph
      /\ kUint64Max - capture_min_timestamp_ late_capture_graph < 2 ^ 53
      /\ round_trip late_capture_graph kUint64Max = Some 0
      /\ ~ round_trip_within_one late_capture_graph kUint64Max).
Proof.
  split; [|split].
  - split; [vm_compute; split; discriminate|].
    assert (H : round_trip offset_graph 1050000 = Some 1045000) by (vm_compute; reflexivity).
    split; [exact H|].
    intros (t' & Ht' & Habs). rewrite H in Ht'. injection Ht' as <-. lia.
  - split; [reflexivity|]. split; [vm_compute; split; discriminate|].
    assert (H : round_trip long_capture_graph (1000 + (2 ^ 53 + 42))
                = Some (1000 + (2 ^ 53 + 44))) by (vm_compute; reflexivity).
    split; [exact H|].
    intros (t' & Ht' & Habs). rewrite H in Ht'. injection Ht' as <-.
    change (2 ^ 53) with 9007199254740992 in Habs. lia.
  - split; [reflexivity|]. split; [vm_compute; split; discriminate|].
    split; [vm_compute; reflexivity|].
    assert (H : round_trip late_capture_graph kUint64Max = Some 0)
      by (vm_compute; reflexivity).
    split; [exact H|].
    intros (t' & Ht' & Habs). rewrite H in Ht'. injection Ht' as <-.
    norm64. lia.
Qed.

(** ** Order on IEEE numbers *)

Lemma SFcompare_antisym x y : SFcompare y x = CompOpp <$> SFcompare x y.
Proof.
  destruct x as [sx|sx| |sx mx ex], y as [sy|sy| |sy my ey]; simpl;
    try reflexivity; try (destruct sx; reflexivity); try (destruct sy; reflexivity);
    try (destruct sx, sy; reflexivity).
  destruct sx, sy; simpl; try reflexivity; f_equal;
    rewrite (Z.compare_antisym ex ey); destruct (ex ?= ey); simpl; try reflexivity.
  - f_equal. by rewrite Pos.compare_cont_antisym.
  - by rewrite Pos.compare_cont_antisym.
Qed.


Lemma SFltb_asym x y : SFltb x y = true -> SFltb y x = false.
Proof.
  unfold SFltb. rewrite (SFcompare_antisym x y).
  destruct (SFcompare x y) as [[]|]; simpl; congruence.
Qed.











(** ** Exact arithmetic on whole numbers below 2^53 *)























(** ** The refresh of the capture extent *)

Lemma scan_min_time_spec g ids : forall start,
  let m := scan_min_time g ids start in
  m <= start
  /\ (forall id track, id ∈ ids -> get_track g id = Some track ->
        timers_ track <> [] -> 0 < GetMinTime track -> m <= GetMinTime track)
  /\ (m = start
      \/ exists id track, id ∈ ids /\ get_track g id = Some track
                          /\ timers_ track <> [] /\ GetMinTime track = m /\ 0 < m).
Proof.
  induction ids as [|id ids IH]; intros start; simpl.
  - split; [lia|]. split; [|by left]. intros id track Hin. by apply elem_of_nil in Hin.
  - set (start' := match get_track g id with Some _ => _ | None => start end).
    destruct (IH start') as (Hle & Hall & Hex). fold (scan_min_time g ids start') in *.
    assert (Hstart' : start' <= start
      /\ (forall track, get_track g id = Some track -> timers_ track <> [] ->
            0 < GetMinTime track -> start' <= GetMinTime track)
      /\ (start' = start
          \/ exists track, get_track g id = Some track /\ timers_ track <> []
                           /\ GetMinTime track = start' /\ 0 < start')).
    { unfold start'. destruct (get_track g id) as [t|]; [|split; [lia|split; [done|by left]]].
      unfold GetNumTimers.
      destruct (timers_ t) as [|x l] eqn:Et.
      { simpl. split; [lia|]. split; [|by left]. intros ? [= <-]. by rewrite Et. }
      assert (Hpos : (0 <? Z.of_nat (length (x :: l))) = true)
        by (apply Z.ltb_lt; simpl; lia).
      rewrite Hpos.
      destruct (Z.ltb_spec 0 (GetMinTime t)), (Z.ltb_spec (GetMinTime t) start); simpl.
      - split; [lia|]. split; [intros ? [= <-]; lia|]. right. exists t.
        by rewrite Et.
      - split; [lia|]. split; [intros ? [= <-]; lia|]. by left.
      - split; [lia|]. split; [intros ? [= <-]; lia|]. by left.
      - split; [lia|]. split; [intros ? [= <-]; lia|]. by left. }
    destruct Hstart' as (Hs1 & Hs2 & Hs3).
    split; [lia|]. split.
    + intros id' track Hin Hget Hne Hpos. apply elem_of_cons in Hin as [->|Hin].
      * specialize (Hs2 track Hget Hne Hpos). lia.
      * by apply (Hall id' track).
    + destruct Hex as [Heq|(id' & track & Hin & Hrest)].
      * rewrite Heq. destruct Hs3 as [->|(track & Hget & Hne & Hmin & Hpos)]; [by left|].
        right. exists id, track. split; [apply list_elem_of_here|done].
      * right. exists id', track. split; [by apply list_elem_of_further|done].
Qed.

Lemma UpdateCaptureMinMaxTimestamps_extent app g :
  let g' := fst (UpdateCaptureMinMaxTimestamps app g) in
  let cs := GetCallstackData app in
  capture_min_timestamp_ g'
  = (if 0 <? GetCallstackEventsCount cs
     then Z.min (scan_min_time g (tracks_ g) kUint64Max) (cs_min_time cs)
     else scan_min_time g (tracks_ g) kUint64Max)
  /\ capture_max_timestamp_ g'
     = (if 0 <? GetCallstackEventsCount cs
        then Z.max (capture_max_timestamp_ g) (cs_max_time cs)
        else capture_max_timestamp_ g)
  /\ snd (UpdateCaptureMinMaxTimestamps app g)
     = negb (capture_min_timestamp_ g' =? kUint64Max).
Proof.
  unfold UpdateCaptureMinMaxTimestamps, scan_min_time. cbn [fst snd].
  destruct (0 <? GetCallstackEventsCount (GetCallstackData app)); by repeat split.
Qed.

Lemma scan_min_time_ext g g' ids start :
  (forall id, get_track g' id = get_track g id) ->
  scan_min_time g' ids start = scan_min_time g ids start.
Proof.
  intros H. revert start. induction ids as [|id ids IH]; intros start; simpl;
    [reflexivity|]. fold (scan_min_time g' ids) (scan_min_time g ids).
  by rewrite H, IH.
Qed.

Lemma UpdateCaptureMinMaxTimestamps_idempotent app g :
  UpdateCaptureMinMaxTimestamps app (fst (UpdateCaptureMinMaxTimestamps app g))
  = UpdateCaptureMinMaxTimestamps app g.
Proof.
  unfold UpdateCaptureMinMaxTimestamps. cbn [fst].
  fold (scan_min_time g (tracks_ g) kUint64Max).
  destruct (0 <? GetCallstackEventsCount (GetCallstackData app)) eqn:Ecs.
  - cbn [tracks_ set_capture_min_timestamp_ set_capture_max_timestamp_
         capture_min_timestamp_ capture_max_timestamp_].
    match goal with
    | |- context [foldl ?f kUint64Max (tracks_ g)] =>
        change (foldl f kUint64Max (tracks_ g))
          with (scan_min_time
                  (set_capture_max_timestamp_
                     (Z.max (capture_max_timestamp_ g) (cs_max_time (GetCallstackData app)))
                     (set_capture_min_timestamp_
                        (Z.min (scan_min_time g (tracks_ g) kUint64Max)
                           (cs_min_time (GetCallstackData app)))
                        (set_capture_min_timestamp_
                           (scan_min_time g (tracks_ g) kUint64Max) g)))
                  (tracks_ g) kUint64Max)
    end.
    rewrite (scan_min_time_ext g) by (by intros []).
    rewrite <- Z.max_assoc, Z.max_id. destruct g; reflexivity.
  - cbn [tracks_ set_capture_min_timestamp_ capture_min_timestamp_].
    match goal with
    | |- context [foldl ?f kUint64Max (tracks_ g)] =>
        change (foldl f kUint64Max (tracks_ g))
          with (scan_min_time
                  (set_capture_min_timestamp_ (scan_min_time g (tracks_ g) kUint64Max) g)
                  (tracks_ g) kUint64Max)
    end.
    rewrite (scan_min_time_ext g) by (by intros []). destruct g; reflexivity.
Qed.
(** ** The window after each operation *)


















(** ** The capture bounds after a refresh *)







(** ** Moving a range into view *)









(** ** Selection by a pixel range *)

Lemma same_number_refl x : same_number x x.
Proof. by left. Qed.

Lemma same_number_zero s s' : same_number (S754_zero s) (S754_zero s').
Proof. right. eauto. Qed.

Ltac zeros H :=
  destruct H as [->|(? & ? & -> & ->)]; [apply same_number_refl|].

Lemma SFcompare_Eq_same x y : SFcompare x y = Some Eq -> same_number x y.
Proof.
  destruct x as [sx|sx| |sx mx ex], y as [sy|sy| |sy my ey]; simpl; intros H;
    try discriminate; try (destruct sx; discriminate); try (destruct sy; discriminate).
  - apply same_number_zero.
  - destruct sx, sy; try discriminate; apply same_number_refl.
  - destruct sx, sy; try discriminate; injection H as H;
      destruct (ex ?= ey) eqn:Ee; try discriminate;
      apply Z.compare_eq in Ee; subst ey.
    + destruct (Pos.compare_cont Eq mx my) eqn:Em; try discriminate.
      apply Pos.compare_eq in Em. subst. apply same_number_refl.
    + apply Pos.compare_eq in H. subst. apply same_number_refl.
Qed.

Lemma SFsub_same prec emax x y w :
  same_number x y -> same_number (SFsub prec emax x w) (SFsub prec emax y w).
Proof.
  intros H. zeros H. destruct w as [s|s| |s m e]; simpl;
    try apply same_number_refl.
  repeat match goal with b : bool |- _ => destruct b end;
    apply same_number_zero.
Qed.

Lemma SFdiv_same prec emax x y w :
  same_number x y -> same_number (SFdiv prec emax x w) (SFdiv prec emax y w).
Proof.
  intros H. zeros H. destruct w as [s|s| |s m e]; simpl;
    try apply same_number_refl; apply same_number_zero.
Qed.

Lemma F_to_double_same x y : same_number x y -> same_number (F.to_double x) (F.to_double y).
Proof. intros H. zeros H. apply same_number_zero. Qed.

Lemma SFmul_same_l prec emax x y w :
  same_number x y -> same_number (SFmul prec emax x w) (SFmul prec emax y w).
Proof.
  intros H. zeros H. destruct w as [s|s| |s m e]; simpl;
    try apply same_number_refl; apply same_number_zero.
Qed.

Lemma SFmul_same_r prec emax x y w :
  same_number x y -> same_number (SFmul prec emax w x) (SFmul prec emax w y).
Proof.
  intros H. zeros H. destruct w as [s|s| |s m e]; simpl;
    try apply same_number_refl; apply same_number_zero.
Qed.

Lemma SFadd_same_r prec emax x y w :
  same_number x y -> same_number (SFadd prec emax w x) (SFadd prec emax w y).
Proof.
  intros H. zeros H. destruct w as [s|s| |s m e]; simpl;
    try apply same_number_refl.
  repeat match goal with b : bool |- _ => destruct b end;
    apply same_number_zero.
Qed.

Lemma D_to_uint64_same x y : same_number x y -> D.to_uint64 x = D.to_uint64 y.
Proof. by intros [->|(? & ? & -> & ->)]. Qed.

Lemma GetTickFromWorld_same g x y :
  same_number x y -> GetTickFromWorld g x = GetTickFromWorld g y.
Proof.
  intros H. unfold GetTickFromWorld, GetTime.
  destruct (negb (F.eqb (world_width_ g) F.zero)); [|reflexivity].
  erewrite D_to_uint64_same; [reflexivity|].
  apply SFmul_same_r, SFadd_same_r, SFmul_same_l, F_to_double_same, SFdiv_same,
    SFsub_same, H.
Qed.

Lemma SFadd_nan_r prec emax x : SFadd prec emax x S754_nan = S754_nan.
Proof. by destruct x. Qed.

Lemma SFmul_nan_r prec emax x : SFmul prec emax x S754_nan = S754_nan.
Proof. by destruct x. Qed.

(** A pixel coordinate that is not a number has no tick, unless the world
    has no width, in which case every coordinate has the same tick. *)
Lemma GetTickFromWorld_nan g :
  GetTickFromWorld g S754_nan = None
  \/ forall x y, GetTickFromWorld g x = GetTickFromWorld g y.
Proof.
  unfold GetTickFromWorld, GetTime.
  destruct (negb (F.eqb (world_width_ g) F.zero)); [left|by right].
  change (F.to_double (F.div (F.sub S754_nan (world_start_x_ g)) (world_width_ g)))
    with S754_nan.
  change (D.mul S754_nan (D.sub (max_time_us_ g) (min_time_us_ g))) with S754_nan.
  unfold D.add. rewrite SFadd_nan_r. unfold D.mul. by rewrite SFmul_nan_r.
Qed.

Lemma SFcompare_None x y : SFcompare x y = None -> x = S754_nan \/ y = S754_nan.
Proof.
  destruct x as [sx|sx| |sx mx ex], y as [sy|sy| |sy my ey]; simpl; intros H;
    try discriminate; auto.
Qed.

(** C8. [SelectEvents] with the two pixel coordinates in either order gives
    the same outcome: the same returned events and the same engine state,
    the per-thread selection map with its all-threads bucket included (or,
    for a coordinate with no tick, no outcome either way). *)
Theorem select_events_swap (app : App) (g : TimeGraph) (world_lo world_hi : float32)
    (thread_id : Z) :
  SelectEvents app world_lo world_hi thread_id g
  = SelectEvents app world_hi world_lo thread_id g
  /\ (forall g1 g2 ev1 ev2,
        SelectEvents app world_lo world_hi thread_id g = Some (g1, ev1) ->
        SelectEvents app world_hi world_lo thread_id g = Some (g2, ev2) ->
        ev1 = ev2
        /\ selected_callstack_events_per_thread_ g1
           = selected_callstack_events_per_thread_ g2).
Proof.
  assert (Heq : SelectEvents app world_lo world_hi thread_id g
                = SelectEvents app world_hi world_lo thread_id g).
  { unfold SelectEvents.
    destruct (F.ltb world_hi world_lo) eqn:E1, (F.ltb world_lo world_hi) eqn:E2;
      try reflexivity.
    - apply SFltb_asym in E1. unfold F.ltb in E2. congruence.
    - unfold F.ltb, SFltb in E1, E2.
      rewrite (SFcompare_antisym world_lo world_hi) in E1.
      destruct (SFcompare world_lo world_hi) as [[]|] eqn:Ec; try discriminate.
      + apply SFcompare_Eq_same in Ec.
        by rewrite (GetTickFromWorld_same g _ _ Ec).
      + destruct (GetTickFromWorld_nan g) as [Hnan|Hall].
        * apply SFcompare_None in Ec as [-> | ->]; rewrite Hnan; simpl.
          -- by destruct (GetTickFromWorld g world_hi).
          -- by destruct (GetTickFromWorld g world_lo).
        * by rewrite (Hall world_lo world_hi). }
  split; [exact Heq|].
  intros g1 g2 ev1 ev2 H1 H2. rewrite Heq, H2 in H1. by injection H1 as <- <-.
Qed.

(** The symmetry is not that of two failures: on an engine 1000 pixels wide
    showing [0 us, 100 us] of a capture that starts at tick 5000, the pixel
    range from 200 down to 100 selects the ticks 15000 to 25000. *)
Lemma select_events_example :
  snd <$> SelectEvents ticks_app (F.of_Z 200) (F.of_Z 100) kAllThreadsFakeTid wide_graph
  = Some [mkCallstackEvent 15000 0 1; mkCallstackEvent 25000 0 2].
Proof. vm_compute. reflexivity. Qed.

(** ** The iterator overlay *)

Lemma draw_iterator_boxes_no_total g canvas bm rest : forall k prev prims,
  draw_iterator_boxes g canvas bm k prev rest = Some prims ->
  forallb (fun p => negb (is_total_text p)) prims = true.
Proof.
  induction rest as [|cur rest IH]; intros k prev prims H; simpl in H.
  - by injection H as <-.
  - destruct (iterator_functions_ g !! prev.1.1) as [fa|]; [|discriminate].
    destruct (iterator_functions_ g !! cur.1.1) as [fb|]; [|discriminate].
    simpl in H.
    destruct (draw_iterator_boxes g canvas bm (k + 1) cur rest) as [more|] eqn:E;
      [|discriminate].
    injection H as <-. simpl. by apply (IH _ _ _ E).
Qed.

Lemma lines_no_total g canvas (boxes : list (Z * TimerInfo)) :
  forallb (fun p => negb (is_total_text p)) (snd <$> (iterator_line g canvas <$> boxes))
  = true.
Proof. induction boxes as [|b boxes IH]; [reflexivity|exact IH]. Qed.

Lemma merge_sort_length {A} (R : relation A) `{forall x y, Decision (R x y)} (l : list A) :
  length (merge_sort R l) = length l.
Proof. apply Permutation_length, merge_sort_Permutation. Qed.

(** C10. Outside picking mode, with exactly one marked record, [DrawOverlay]
    emits the vertical line of that record and nothing else: the loop over
    adjacent pairs, which divides by the number of markers minus one, has no
    pair to run on. And whenever fewer than three records are marked, no
    total annotation is among the primitives emitted. *)
Theorem overlay_single_marker (g : TimeGraph) (canvas : GlCanvas) (bottom_margin : float32)
    (id : Z) (box : TimerInfo) :
  (iterator_text_boxes_ g = {[ id := box ]} ->
   DrawOverlay g canvas bottom_margin PickingMode.kNone
   = Some [ AddVerticalLine
              (fst (iterator_line g canvas (id, box)), GetWorldTopLeftY canvas)
              (SFopp (GetWorldHeight canvas)) kZValueOverlay
              (GetThreadColor (ti_thread_id box)) ])
  /\ (forall prims,
        (size (iterator_text_boxes_ g) < 3)%nat ->
        DrawOverlay g canvas bottom_margin PickingMode.kNone = Some prims ->
        forallb (fun p => negb (is_total_text p)) prims = true).
Proof.
  split.
  - intros Hone. unfold DrawOverlay. rewrite Hone.
    rewrite map_size_singleton, map_to_list_singleton. reflexivity.
  - intros prims Hsize. unfold DrawOverlay.
    destruct (is_picking PickingMode.kNone || _) eqn:Epick.
    { intros H. by injection H as <-. }
    set (boxes := merge_sort start_le (map_to_list (iterator_text_boxes_ g))).
    assert (Hlen : length boxes = size (iterator_text_boxes_ g)).
    { unfold boxes. rewrite merge_sort_length. by rewrite length_map_to_list. }
    destruct (Nat.ltb_spec 2 (length boxes)) as [Hgt|_]; [lia|].
    set (with_x := zip boxes _).
    destruct with_x as [|first rest]; simpl.
    + intros H. injection H as <-. rewrite !app_nil_r.
      apply lines_no_total.
    + destruct (draw_iterator_boxes g canvas bottom_margin 1 first rest) as [pb|] eqn:E;
        [|discriminate].
      simpl. intros H. injection H as <-. rewrite app_nil_r, forallb_app.
      apply andb_true_intro. split.
      * apply lines_no_total.
      * by apply (draw_iterator_boxes_no_total _ _ _ _ _ _ _ E).
Qed.

Lemma overlay_single_marker_witness :
  DrawOverlay one_marker_graph sample_canvas (F.of_Z 5) PickingMode.kNone
  = Some [ AddVerticalLine
             (fst (iterator_line one_marker_graph sample_canvas
                     (1, mkTimerInfo 1500 2500 7 0 kFunctionSpan 0 0 0)),
              GetWorldTopLeftY sample_canvas)
             (SFopp (GetWorldHeight sample_canvas)) kZValueOverlay
             (GetThreadColor 7) ].
Proof.
  apply (overlay_single_marker one_marker_graph sample_canvas (F.of_Z 5) 1
           (mkTimerInfo 1500 2500 7 0 kFunctionSpan 0 0 0)).
  reflexivity.
Defined.

(** ** Ordering the tracks *)

Lemma same_view_refl g : same_view g g.
Proof. by repeat split. Qed.

Lemma same_view_trans g g' g'' : same_view g g' -> same_view g' g'' -> same_view g g''.
Proof.
  intros (H1 & H2 & H3 & H4 & H5 & H6 & H7 & H8 & H9)
         (K1 & K2 & K3 & K4 & K5 & K6 & K7 & K8 & K9).
  repeat split; congruence.
Qed.

Lemma GetOrCreateThreadTrack_view tid g : same_view g (GetOrCreateThreadTrack tid g).
Proof.
  unfold GetOrCreateThreadTrack.
  destruct (thread_tracks_ g !! tid) eqn:E; [apply same_view_refl|].
  repeat split; intros tid'; unfold thread_is_empty, thread_name;
    cbn [thread_tracks_ set_thread_tracks_ set_tracks_];
    (destruct (decide (tid = tid')) as [<-|Hne];
     [by rewrite lookup_insert_eq, E|by rewrite lookup_insert_ne]).
Qed.

Lemma set_event_count_view m g : same_view g (set_event_count_ m g).
Proof. by repeat split. Qed.

Lemma set_sorted_tracks_view l g : same_view g (set_sorted_tracks_ l g).
Proof. by repeat split. Qed.

Lemma GetOrCreateThreadTrack_event_count tid g :
  event_count_ (GetOrCreateThreadTrack tid g) = event_count_ g.
Proof. frame. Qed.

(** The first loop: the sampled counts are recorded and a thread track is
    registered for every sampled thread. *)
Lemma record_sampled_counts g l : forall g0,
  same_view g g0 ->
  same_view g (foldl record_event_count g0 l)
  /\ event_count_ (foldl record_event_count g0 l)
     = foldl (fun m tid_and_count => <[fst tid_and_count := snd tid_and_count]> m)
         (event_count_ g0) l.
Proof.
  induction l as [|p l IH]; intros g0 Hv; cbn [foldl]; [by split|].
  assert (Hv' : same_view g (record_event_count g0 p)).
  { eapply same_view_trans; [exact Hv|]. eapply same_view_trans;
      [apply set_event_count_view|apply GetOrCreateThreadTrack_view]. }
  destruct (IH _ Hv') as [H1 H2]. split; [exact H1|]. rewrite H2. f_equal.
  unfold record_event_count. by rewrite GetOrCreateThreadTrack_event_count.
Qed.

(** The number of filter pieces the name of a thread's track contains. *)
Lemma filter_pieces_pushed name tid (pieces : list string) : forall acc : list Z,
  foldl (fun acc filter => if StrContains name filter then acc ++ [tid] else acc)
    acc pieces
  = acc ++ replicate (length (filter (fun piece => StrContains name piece = true) pieces))
             tid.
Proof.
  induction pieces as [|piece pieces IH]; intros acc; cbn [foldl].
  - by rewrite app_nil_r.
  - rewrite IH. destruct (StrContains name piece) eqn:E.
    + rewrite filter_cons_True by exact E. cbn [length replicate].
      by rewrite <- app_assoc.
    + rewrite filter_cons_False; [done|]. by rewrite E.
Qed.

(** The filter loop: every id is pushed once for each piece that the name of
    its track contains. *)
Lemma filter_thread_ids_spec g pieces ids : forall g0 acc,
  same_view g g0 ->
  let res := foldl (filter_step pieces) (g0, acc) ids in
  same_view g (fst res)
  /\ snd res
     = acc ++ flat_map
                (fun tid =>
                   replicate
                     (length (filter (fun piece =>
                                        StrContains (thread_name g tid) piece = true)
                                pieces)) tid)
                ids.
Proof.
  induction ids as [|tid ids IH]; intros g0 acc Hv; cbn [foldl flat_map].
  - split; [exact Hv|]. by rewrite app_nil_r.
  - set (g0' := GetOrCreateThreadTrack tid g0).
    assert (Hv' : same_view g g0').
    { eapply same_view_trans; [exact Hv|apply GetOrCreateThreadTrack_view]. }
    assert (Hname : thread_name g0' tid = thread_name g tid) by apply Hv'.
    assert (Hstep : filter_step pieces (g0, acc) tid
                    = (g0', acc ++ replicate
                              (length (filter (fun piece =>
                                                 StrContains (thread_name g tid) piece = true)
                                         pieces)) tid)).
    { unfold filter_step. fold g0'. rewrite Hname. by rewrite filter_pieces_pushed. }
    rewrite Hstep.
    destruct (IH g0' (acc ++ replicate
                        (length (filter (fun piece =>
                                           StrContains (thread_name g tid) piece = true)
                                   pieces)) tid) Hv') as [H1 H2].
    split; [exact H1|]. rewrite H2. by rewrite <- app_assoc.
Qed.

Lemma push_thread_tracks_spec g ids : forall g0,
  same_view g g0 ->
  same_view g (push_thread_tracks ids g0)
  /\ sorted_tracks_ (push_thread_tracks ids g0)
     = sorted_tracks_ g0
       ++ (ThreadId <$> filter (fun tid => thread_is_empty g tid = false) ids).
Proof.
  unfold push_thread_tracks.
  induction ids as [|tid ids IH]; intros g0 Hv; simpl.
  - split; [exact Hv|]. by rewrite app_nil_r.
  - set (g0' := GetOrCreateThreadTrack tid g0).
    assert (Hv' : same_view g g0').
    { eapply same_view_trans; [exact Hv|apply GetOrCreateThreadTrack_view]. }
    assert (Hemp : thread_is_empty g0' tid = thread_is_empty g tid) by apply Hv'.
    assert (Hsorted : sorted_tracks_ g0' = sorted_tracks_ g0).
    { unfold g0', GetOrCreateThreadTrack. by destruct (_ !! _). }
    rewrite Hemp. destruct (thread_is_empty g tid) eqn:E.
    + destruct (IH g0' Hv') as [H1 H2]. split; [exact H1|].
      rewrite H2, Hsorted, filter_cons_False; [done|]. by rewrite E.
    + set (g0'' := set_sorted_tracks_ _ g0').
      assert (Hv'' : same_view g g0'').
      { eapply same_view_trans; [exact Hv'|apply set_sorted_tracks_view]. }
      destruct (IH g0'' Hv'') as [H1 H2]. split; [exact H1|].
      rewrite H2, filter_cons_True by exact E. unfold g0''.
      cbn [sorted_tracks_ set_sorted_tracks_]. rewrite Hsorted, <- app_assoc.
      reflexivity.
Qed.

Lemma StrContains_empty s : StrContains s EmptyString = true.
Proof. by destruct s. Qed.

Lemma filter_all_true {A} (P : A -> Prop) `{forall x, Decision (P x)} (l : list A) :
  (forall x, P x) -> filter P l = l.
Proof.
  intros HP. induction l as [|x l IH]; [reflexivity|].
  rewrite filter_cons_True by apply HP. by rewrite IH.
Qed.

(** The entries of a map ranked by [ReverseValueSort]: the same entries, by
    descending value. *)
Lemma ReverseValueSort_spec (m : gmap Z Z) :
  Sorted count_ge (ReverseValueSort m)
  /\ (forall tid count, (tid, count) ∈ ReverseValueSort m <-> m !! tid = Some count).
Proof.
  split.
  - apply Sorted_merge_sort. intros [a x] [b y]. unfold count_ge. simpl. lia.
  - intros tid count. unfold ReverseValueSort.
    rewrite merge_sort_Permutation. apply elem_of_map_to_list.
Qed.

(** The number of times the filter loop pushes a thread. *)
Lemma passes_filter_spec g tid :
  passes_filter g tid = true
  <-> exists piece, piece ∈ StrSplit (thread_filter_ g) " "
                    /\ StrContains (thread_name g tid) piece = true.
Proof.
  unfold passes_filter. rewrite existsb_exists.
  split; intros (piece & Hin & Hc); exists piece; (split; [|exact Hc]).
  - by apply list_elem_of_In.
  - by apply list_elem_of_In.
Qed.

Lemma passes_filter_pushed g tid :
  passes_filter g tid = true
  <-> (1 <= length (filter (fun piece => StrContains (thread_name g tid) piece = true)
                     (StrSplit (thread_filter_ g) " ")))%nat.
Proof.
  rewrite passes_filter_spec. split.
  - intros (piece & Hin & Hc).
    assert (Hf : piece ∈ filter (fun piece => StrContains (thread_name g tid) piece = true)
                          (StrSplit (thread_filter_ g) " ")).
    { apply list_elem_of_filter. by split. }
    destruct (filter _ _); [by apply elem_of_nil in Hf|simpl; lia].
  - intros Hlen.
    destruct (filter (fun piece => StrContains (thread_name g tid) piece = true)
                (StrSplit (thread_filter_ g) " ")) as [|piece l] eqn:E;
      [simpl in Hlen; lia|].
    assert (Hf : piece ∈ filter (fun piece => StrContains (thread_name g tid) piece = true)
                          (StrSplit (thread_filter_ g) " ")).
    { rewrite E. apply list_elem_of_here. }
    apply list_elem_of_filter in Hf as [Hc Hin]. by exists piece.
Qed.

Lemma flat_map_replicate_filter {A} (P : A -> Prop) `{forall x, Decision (P x)}
    (k : A -> nat) (l : list A) :
  filter P (flat_map (fun x => replicate (k x) x) l)
  = flat_map (fun x => replicate (k x) x) (filter P l).
Proof.
  induction l as [|x l IH]; [reflexivity|].
  cbn [flat_map]. rewrite filter_app, IH.
  destruct (decide (P x)) as [Hx|Hx].
  - rewrite filter_cons_True by exact Hx. cbn [flat_map]. f_equal.
    induction (k x) as [|n IHn]; [reflexivity|].
    cbn [replicate]. rewrite filter_cons_True by exact Hx. by rewrite IHn.
  - rewrite filter_cons_False by exact Hx.
    replace (filter P (replicate (k x) x)) with (@nil A); [reflexivity|].
    induction (k x) as [|n IHn]; [reflexivity|].
    cbn [replicate]. rewrite filter_cons_False by exact Hx. exact IHn.
Qed.

Lemma flat_map_replicate_positive {A} (k : A -> nat) (l : list A) :
  flat_map (fun x => replicate (k x) x) l
  = flat_map (fun x => replicate (k x) x) (filter (fun x => (1 <= k x)%nat) l).
Proof.
  induction l as [|x l IH]; [reflexivity|].
  cbn [flat_map]. destruct (decide (1 <= k x)%nat) as [Hx|Hx].
  - rewrite filter_cons_True by exact Hx. cbn [flat_map]. by rewrite IH.
  - rewrite filter_cons_False by exact Hx.
    assert (E : k x = 0%nat) by lia. rewrite E. exact IH.
Qed.

Lemma flat_map_replicate_once {A} (l : list A) :
  flat_map (fun x => replicate 1 x) l = l.
Proof.
  induction l as [|x l IH]; [reflexivity|].
  change (x :: flat_map (fun x => replicate 1 x) l = x :: l). by rewrite IH.
Qed.

Lemma filter_ext_iff {A} (P Q : A -> Prop) `{forall x, Decision (P x)}
    `{forall x, Decision (Q x)} (l : list A) :
  (forall x, P x <-> Q x) -> filter P l = filter Q l.
Proof.
  intros HPQ. induction l as [|x l IH]; [reflexivity|].
  destruct (decide (P x)) as [Hx|Hx].
  - rewrite (filter_cons_True P) by exact Hx.
    rewrite (filter_cons_True Q) by (apply HPQ; exact Hx). by rewrite IH.
  - rewrite (filter_cons_False P) by exact Hx.
    rewrite (filter_cons_False Q) by (rewrite <- HPQ; exact Hx). exact IH.
Qed.

(** ** The two string helpers *)

Lemma prefix_spec n : forall h,
  String.prefix n h = true <-> exists post, h = n +:+ post.
Proof.
  induction n as [|c n IH]; intros h.
  - split; [intros _; by exists h|by destruct h].
  - destruct h as [|c' h]; cbn [String.prefix].
    + split; [discriminate|]. intros (post & Hp). discriminate Hp.
    + destruct (Ascii.ascii_dec c c') as [->|Hne].
      * rewrite IH. split; intros (post & Hp); exists post.
        -- change (String c' h = String c' (n +:+ post)). by rewrite Hp.
        -- change (String c' h = String c' (n +:+ post)) in Hp. by injection Hp.
      * split; [discriminate|]. intros (post & Hp).
        change (String c' h = String c (n +:+ post)) in Hp. congruence.
Qed.

(** [StrContains]: the needle occurs somewhere in the haystack. *)
Lemma StrContains_spec n : forall h,
  StrContains h n = true <-> exists pre post, h = pre +:+ n +:+ post.
Proof.
  induction h as [|c h IH]; cbn [StrContains].
  - rewrite orb_false_r, prefix_spec. split.
    + intros (post & Hp). by exists EmptyString, post.
    + intros (pre & post & Hp). destruct pre; [by exists post|discriminate Hp].
  - rewrite orb_true_iff, prefix_spec, IH. split.
    + intros [(post & Hp)|(pre & post & Hp)].
      * by exists EmptyString, post.
      * exists (String c pre), post. cbn. by rewrite Hp.
    + intros (pre & post & Hp). destruct pre as [|c' pre].
      * left. by exists post.
      * right. cbn in Hp. injection Hp as _ Hp. by exists pre, post.
Qed.

Lemma StrSplit_nonempty s sep : StrSplit s sep <> [].
Proof.
  destruct s as [|c s]; cbn [StrSplit]; [discriminate|].
  destruct (Ascii.eqb c sep); [discriminate|]. by destruct (StrSplit s sep).
Qed.

(** [StrSplit]: the pieces, put together again with the separator between
    them, give the string back, and no piece holds a separator. *)
Lemma StrSplit_spec s :
  join_pieces (StrSplit s " ") = s
  /\ Forall (fun piece => StrContains piece " " = false) (StrSplit s " ").
Proof.
  induction s as [|c s [IHj IHf]]; cbn [StrSplit].
  - split; [reflexivity|]. by constructor.
  - destruct (Ascii.eqb c " ") eqn:E.
    + apply Ascii.eqb_eq in E as ->. split.
      * pose proof (StrSplit_nonempty s " ") as Hne.
        destruct (StrSplit s " ") as [|p l]; [done|].
        change (String " " (join_pieces (p :: l)) = String " " s). by rewrite IHj.
      * constructor; [reflexivity|exact IHf].
    + pose proof (StrSplit_nonempty s " ") as Hne.
      destruct (StrSplit s " ") as [|p l]; [done|]. split.
      * rewrite <- IHj. by destruct l.
      * apply Forall_cons in IHf as [Hp Hl]. constructor; [|exact Hl].
        cbn [StrContains String.prefix]. rewrite Hp.
        destruct (Ascii.ascii_dec " " c) as [<-|Hne']; [|reflexivity].
        by rewrite Ascii.eqb_refl in E.
Qed.

(** The draw list [SortTracks] builds when it reorders. *)
Lemma SortTracks_draw_order app g :
  must_reorder app g = true ->
  sorted_tracks_ (SortTracks app g)
  = expected_draw_order app g
      (fun tid =>
         length (filter (fun piece => StrContains (thread_name g tid) piece = true)
                   (StrSplit (thread_filter_ g) " "))).
Proof.
  intros Hre. unfold SortTracks.
  set (times := fun tid : Z =>
         length (filter (fun piece => StrContains (thread_name g tid) piece = true)
                   (StrSplit (thread_filter_ g) " "))).
  set (g0 := GetOrCreateThreadTrack kAllThreadsFakeTid (set_event_count_ _ g)).
  assert (Hv0 : same_view g g0).
  { eapply same_view_trans; [apply set_event_count_view|apply GetOrCreateThreadTrack_view]. }
  destruct (record_sampled_counts g
              (GetCallstackEventsCountsPerTid (GetCallstackData app)) g0 Hv0) as [Hv1 Hec].
  set (g1 := foldl record_event_count g0 _) in *.
  assert (Hec1 : event_count_ g1 = sampled_counts app).
  { rewrite Hec. unfold sampled_counts, g0.
    by rewrite GetOrCreateThreadTrack_event_count. }
  assert (Hre1 : must_reorder app g1 = true).
  { unfold must_reorder, QueryMillis in *.
    pose proof Hv1 as (_ & _ & _ & _ & _ & _ & -> & _). exact Hre. }
  rewrite Hre1.
  assert (Hids : sorted_thread_ids g1
                 = filter (fun tid => tid ≠ kAllThreadsFakeTid)
                     (fst <$> ReverseValueSort (thread_count_map_ g))
                   ++ filter (fun tid => tid ≠ kAllThreadsFakeTid
                                         ∧ thread_count_map_ g !! tid = None)
                        (fst <$> ReverseValueSort (sampled_counts app))).
  { unfold sorted_thread_ids. rewrite Hec1.
    pose proof Hv1 as (-> & _). reflexivity. }
  set (ids := sorted_thread_ids g1) in *.
  assert (Hfilter : exists g2,
    (if is_empty_string (thread_filter_ g1) then (g1, ids)
     else filter_thread_ids (StrSplit (thread_filter_ g1) " ") ids g1)
    = (g2, flat_map (fun tid => replicate (times tid) tid) ids) /\ same_view g g2).
  { assert (Hf : thread_filter_ g1 = thread_filter_ g) by apply Hv1.
    rewrite Hf.
    destruct (is_empty_string (thread_filter_ g)) eqn:Ee.
    - exists g1. split; [|exact Hv1]. f_equal.
      assert (Hone : forall tid, times tid = 1%nat).
      { intros tid. unfold times. destruct (thread_filter_ g); [|discriminate].
        cbn [StrSplit]. rewrite filter_cons_True by apply StrContains_empty.
        reflexivity. }
      rewrite <- (flat_map_replicate_once ids) at 1.
      apply flat_map_ext. intros tid. by rewrite Hone.
    - unfold filter_thread_ids.
      destruct (filter_thread_ids_spec g (StrSplit (thread_filter_ g) " ") ids g1 [] Hv1)
        as [H1 H2].
      destruct (foldl (filter_step _) _ _) as [g2 ids2]. exists g2. simpl in H1, H2.
      by rewrite H2. }
  destruct Hfilter as (g2 & -> & Hv2).
  cbn [sorted_tracks_ set_last_thread_reorder_].
  set (g3 := set_sorted_tracks_ [] g2).
  assert (Hv3 : same_view g g3)
    by (eapply same_view_trans; [exact Hv2|apply set_sorted_tracks_view]).
  set (g4 := match scheduler_track_ g3 with Some _ => _ | None => g3 end).
  assert (H4 : same_view g g4
               /\ sorted_tracks_ g4
                  = match scheduler_track_ g with
                    | Some track => if IsEmpty track then [] else [SchedulerId]
                    | None => []
                    end).
  { unfold g4. pose proof Hv3 as (_ & Hs & _). rewrite Hs.
    destruct (scheduler_track_ g) as [track|]; [|split; [exact Hv3|reflexivity]].
    destruct (IsEmpty track); [split; [exact Hv3|reflexivity]|].
    split; [|reflexivity].
    eapply same_view_trans; [exact Hv3|apply set_sorted_tracks_view]. }
  destruct H4 as [Hv4 Hs4].
  set (g5 := set_sorted_tracks_ (sorted_tracks_ g4 ++ _) g4).
  set (g6 := set_sorted_tracks_ (sorted_tracks_ g5 ++ _) g5).
  set (g7 := set_sorted_tracks_ (sorted_tracks_ g6 ++ _) g6).
  assert (Hv7 : same_view g g7).
  { do 3 (eapply same_view_trans; [|apply set_sorted_tracks_view]). exact Hv4. }
  set (g8 := if thread_is_empty g7 kAllThreadsFakeTid then g7 else _).
  assert (H8 : same_view g g8
               /\ sorted_tracks_ g8
                  = sorted_tracks_ g7
                    ++ (if thread_is_empty g kAllThreadsFakeTid then []
                        else [ThreadId kAllThreadsFakeTid])).
  { unfold g8. pose proof Hv7 as (_ & _ & _ & _ & _ & _ & _ & He & _).
    rewrite He. destruct (thread_is_empty g kAllThreadsFakeTid).
    - split; [exact Hv7|]. by rewrite app_nil_r.
    - split; [|reflexivity].
      eapply same_view_trans; [exact Hv7|apply set_sorted_tracks_view]. }
  destruct H8 as [Hv8 Hs8].
  destruct (push_thread_tracks_spec g (flat_map (fun tid => replicate (times tid) tid) ids)
              g8 Hv8) as [_ Hpush].
  rewrite Hpush, Hs8. unfold g7, g6, g5. cbn [sorted_tracks_ set_sorted_tracks_
    gpu_tracks_ graph_tracks_ async_tracks_].
  pose proof Hv4 as (_ & _ & -> & -> & -> & _). rewrite Hs4.
  unfold expected_draw_order. rewrite <- !app_assoc. do 5 f_equal.
  rewrite flat_map_replicate_filter.
  rewrite (flat_map_replicate_positive times).
  f_equal. unfold thread_draw_order. rewrite <- Hids.
  rewrite !list_filter_filter. f_equal.
  apply filter_ext_iff. intros tid. unfold times.
  rewrite passes_filter_pushed. tauto.
Qed.

Lemma SortTracks_throttled app g :
  must_reorder app g = false -> sorted_tracks_ (SortTracks app g) = sorted_tracks_ g.
Proof.
  intros Hre. unfold SortTracks.
  set (g0 := GetOrCreateThreadTrack kAllThreadsFakeTid (set_event_count_ _ g)).
  assert (Hv0 : same_view g g0).
  { eapply same_view_trans; [apply set_event_count_view|apply GetOrCreateThreadTrack_view]. }
  destruct (record_sampled_counts g
              (GetCallstackEventsCountsPerTid (GetCallstackData app)) g0 Hv0) as [Hv1 _].
  set (g1 := foldl record_event_count g0 _) in *.
  assert (Hre1 : must_reorder app g1 = false).
  { unfold must_reorder, QueryMillis in *.
    pose proof Hv1 as (_ & _ & _ & _ & _ & _ & -> & _). exact Hre. }
  rewrite Hre1. unfold g1.
  rewrite (foldl_invariant sorted_tracks_).
  - unfold g0. frame.
  - intros a b. unfold record_event_count. frame.
Qed.

(** C4, as the code has it. When [SortTracks] reorders (no capture running,
    or more than a second since the last reorder), the draw list is: the
    scheduler track if non-empty; every GPU track, every graph track and
    every async track, empty or not; the process track if non-empty; then the
    non-empty thread tracks that pass the filter, the threads with
    instrumented events first by descending event count, then the other
    sampled threads by descending callstack count, each listed one or more
    times in a row. A thread passes the filter when the name of its track
    contains one of the pieces the filter falls into at its spaces.
    Otherwise the draw list is left as it was. On the engine with one empty
    GPU track and one non-empty thread track, the draw list is the GPU track
    followed by the thread track; under the filter "ren aud", of the threads
    "render", "audio" and "main" the first two are drawn, by event count. *)
Theorem sort_tracks_draw_order (app : App) (g : TimeGraph) :
  (must_reorder app g = true ->
   exists times : Z -> nat,
     (forall tid, passes_filter g tid = true -> (1 <= times tid)%nat)
     /\ sorted_tracks_ (SortTracks app g) = expected_draw_order app g times)
  /\ (must_reorder app g = false ->
      sorted_tracks_ (SortTracks app g) = sorted_tracks_ g)
  /\ (forall tid,
        passes_filter g tid = true
        <-> exists piece pre post,
              piece ∈ StrSplit (thread_filter_ g) " "
              /\ thread_name g tid = pre +:+ piece +:+ post)
  /\ (join_pieces (StrSplit (thread_filter_ g) " ") = thread_filter_ g
      /\ Forall (fun piece => StrContains piece " " = false)
           (StrSplit (thread_filter_ g) " "))
  /\ (forall m : gmap Z Z,
        Sorted count_ge (ReverseValueSort m)
        /\ forall tid count, (tid, count) ∈ ReverseValueSort m <-> m !! tid = Some count)
  /\ sorted_tracks_ (SortTracks idle_app gpu_and_thread_graph) = [GpuId 42; ThreadId 7]
  /\ sorted_tracks_ (SortTracks idle_app named_threads_graph) = [ThreadId 8; ThreadId 7].
Proof.
  split; [|split; [|split; [|split; [|split; [|split]]]]].
  - intros Hre. eexists. split; [|by apply SortTracks_draw_order].
    intros tid Hp. by apply passes_filter_pushed.
  - apply SortTracks_throttled.
  - intros tid. rewrite passes_filter_spec. split.
    + intros (piece & Hin & Hc). apply StrContains_spec in Hc as (pre & post & Hc).
      by exists piece, pre, post.
    + intros (piece & pre & post & Hin & Hc). exists piece. split; [exact Hin|].
      apply StrContains_spec. by exists pre, post.
  - apply StrSplit_spec.
  - apply ReverseValueSort_spec.
  - vm_compute. reflexivity.
  - vm_compute. reflexivity.
Qed.

Lemma sort_tracks_draw_order_witness :
  exists times : Z -> nat,
    (forall tid, passes_filter named_threads_graph tid = true -> (1 <= times tid)%nat)
    /\ sorted_tracks_ (SortTracks idle_app named_threads_graph)
       = expected_draw_order idle_app named_threads_graph times.
Proof.
  assert (Hre : must_reorder idle_app named_threads_graph = true)
    by (vm_compute; reflexivity).
  exact (proj1 (sort_tracks_draw_order idle_app named_threads_graph) Hre).
Defined.

(** C4 as stated fails on its own scenario. The engine holds an empty GPU
    track (timeline 42) and a non-empty thread track (thread 7), besides the
    two always-present tracks, both empty; the draw list comes out as the
    GPU track and the thread track, not the thread track alone. *)
Lemma empty_gpu_track_is_drawn :
  (IsEmpty <$> gpu_tracks_ gpu_and_thread_graph) = {[ 42 := true ]}
  /\ (IsEmpty <$> thread_tracks_ gpu_and_thread_graph)
     = {[ kAllThreadsFakeTid := true; 7 := false ]}
  /\ sorted_tracks_ (SortTracks idle_app gpu_and_thread_graph) = [GpuId 42; ThreadId 7]
  /\ sorted_tracks_ (SortTracks idle_app gpu_and_thread_graph) <> [ThreadId 7].
Proof.
  assert (H : sorted_tracks_ (SortTracks idle_app gpu_and_thread_graph)
              = [GpuId 42; ThreadId 7]) by (vm_compute; reflexivity).
  split; [|split; [|split]].
  - vm_compute. reflexivity.
  - vm_compute. reflexivity.
  - exact H.
  - rewrite H. discriminate.
Qed.

(** * Further properties of the engine *)

(** ** The registry *)

Lemma get_track_GetOrCreateTrack_eq id g : is_Some (get_track (GetOrCreateTrack id g) id).
Proof.
  destruct id; simpl;
    unfold GetOrCreateSchedulerTrack, GetOrCreateThreadTrack, GetOrCreateGpuTrack,
      GetOrCreateGraphTrack, GetOrCreateAsyncTrack;
    match goal with |- context [match ?x with _ => _ end] => destruct x eqn:E end;
    simpl; rewrite ?E, ?lookup_insert_eq; eauto.
Qed.

Lemma GetOrCreateTrack_present id g :
  is_Some (get_track g id) -> GetOrCreateTrack id g = g.
Proof.
  intros [t Ht]. destruct id; simpl in *;
    unfold GetOrCreateSchedulerTrack, GetOrCreateThreadTrack, GetOrCreateGpuTrack,
      GetOrCreateGraphTrack, GetOrCreateAsyncTrack; by rewrite Ht.
Qed.

Lemma get_track_GetOrCreateTrack_ne id id' g :
  id' <> id -> get_track (GetOrCreateTrack id g) id' = get_track g id'.
Proof.
  intros Hne. destruct id; simpl;
    unfold GetOrCreateSchedulerTrack, GetOrCreateThreadTrack, GetOrCreateGpuTrack,
      GetOrCreateGraphTrack, GetOrCreateAsyncTrack;
    match goal with |- context [match ?x with _ => _ end] => destruct x eqn:E end;
    try reflexivity; destruct id'; simpl; try reflexivity; try congruence;
    apply lookup_insert_ne; congruence.
Qed.

Lemma tracks_GetOrCreateTrack id g :
  tracks_ (GetOrCreateTrack id g)
  = if decide (is_Some (get_track g id)) then tracks_ g else tracks_ g ++ [id].
Proof.
  destruct (decide (is_Some (get_track g id))) as [H|H].
  - by rewrite GetOrCreateTrack_present.
  - destruct id; simpl in *;
      unfold GetOrCreateSchedulerTrack, GetOrCreateThreadTrack, GetOrCreateGpuTrack,
        GetOrCreateGraphTrack, GetOrCreateAsyncTrack;
      match goal with |- context [match ?x with _ => _ end] => destruct x eqn:E end;
      try reflexivity; exfalso; apply H; eauto.
Qed.

(** X1. Get-or-create is idempotent for every kind of track: the track is
    registered afterwards, a second call changes nothing, a call for a track
    that exists changes nothing, and no other track is affected. *)
Theorem get_or_create_idempotent (id : TrackId) (g : TimeGraph) :
  is_Some (get_track (GetOrCreateTrack id g) id)
  /\ GetOrCreateTrack id (GetOrCreateTrack id g) = GetOrCreateTrack id g
  /\ (is_Some (get_track g id) -> GetOrCreateTrack id g = g)
  /\ (forall id', id' <> id -> get_track (GetOrCreateTrack id g) id' = get_track g id').
Proof.
  split; [apply get_track_GetOrCreateTrack_eq|]. split; [|split].
  - apply GetOrCreateTrack_present, get_track_GetOrCreateTrack_eq.
  - apply GetOrCreateTrack_present.
  - intros id'. apply get_track_GetOrCreateTrack_ne.
Qed.

Lemma GetOrCreateTrack_consistent id g :
  registry_consistent g -> registry_consistent (GetOrCreateTrack id g).
Proof.
  intros [Hnd Hiff]. unfold registry_consistent.
  rewrite tracks_GetOrCreateTrack.
  destruct (decide (is_Some (get_track g id))) as [H|H].
  - rewrite GetOrCreateTrack_present by exact H. by split.
  - split.
    + apply NoDup_app. split; [exact Hnd|]. split; [|apply NoDup_singleton].
      intros x Hx Hx'. apply list_elem_of_singleton in Hx'. subst x.
      apply H, Hiff, Hx.
    + intros id'. rewrite elem_of_app, list_elem_of_singleton.
      destruct (decide (id' = id)) as [->|Hne].
      * split; [intros _; apply get_track_GetOrCreateTrack_eq|auto].
      * rewrite get_track_GetOrCreateTrack_ne by exact Hne. rewrite Hiff.
        split; [intros [?|?]; [done|congruence]|by left].
Qed.

Lemma same_shape_consistent g g' :
  same_shape g g' -> registry_consistent g -> registry_consistent g'.
Proof.
  intros [Ht Hs] [Hnd Hiff]. unfold registry_consistent. rewrite Ht.
  split; [exact Hnd|]. intros id. by rewrite Hs.
Qed.

Lemma is_Some_alter {K A} `{Countable K} (f : A -> A) (m : gmap K A) i j :
  is_Some (alter f i m !! j) <-> is_Some (m !! j).
Proof.
  destruct (decide (i = j)) as [->|Hne].
  - rewrite lookup_alter_eq. by rewrite fmap_is_Some.
  - by rewrite lookup_alter_ne.
Qed.

Ltac shape :=
  split; [reflexivity|]; intros [] ; cbn [get_track scheduler_track_ thread_tracks_
    gpu_tracks_ graph_tracks_ async_tracks_ set_scheduler_track_ set_thread_tracks_
    set_gpu_tracks_ set_graph_tracks_ set_async_tracks_ set_cores_seen_
    set_thread_count_map_ set_needs_redraw_ set_needs_update_primitives_
    set_capture_max_timestamp_];
  rewrite ?is_Some_alter, ?fmap_is_Some; reflexivity.

Lemma raise_capture_max_consistent r g :
  registry_consistent g -> registry_consistent (raise_capture_max r g).
Proof.
  unfold raise_capture_max. destruct (_ <? _); [|done].
  apply same_shape_consistent. shape.
Qed.

Lemma ProcessAsyncTimer_consistent name r g :
  registry_consistent g -> registry_consistent (ProcessAsyncTimer name r g).
Proof.
  intros H. unfold ProcessAsyncTimer.
  apply (same_shape_consistent (GetOrCreateTrack (AsyncId name) g)); [shape|].
  by apply GetOrCreateTrack_consistent.
Qed.

Lemma ProcessValueTrackingTimer_consistent app r g :
  registry_consistent g -> registry_consistent (ProcessValueTrackingTimer app r g).
Proof.
  intros H. unfold ProcessValueTrackingTimer.
  pose proof (GetOrCreateTrack_consistent (GraphId (ev_name (ApiEventFromTimerInfo app r))) g H)
    as Hg.
  destruct (ev_type (ApiEventFromTimerInfo app r)); try exact H; try exact Hg;
    (eapply same_shape_consistent; [|exact Hg]; shape).
Qed.

Lemma orbit_stage_consistent app r f g :
  registry_consistent g -> registry_consistent (orbit_function_stage app r f g).
Proof.
  intros H. unfold orbit_function_stage. destruct f as [[n ty]|]; [|exact H].
  destruct ty; simpl; try exact H.
  - by apply ProcessValueTrackingTimer_consistent.
  - generalize (AsyncTimerListenerCalls app r). intros l. revert g H.
    induction l as [|c l IH]; intros g H; simpl; [exact H|].
    apply IH. by apply ProcessAsyncTimer_consistent.
  - generalize (AsyncTimerListenerCalls app r). intros l. revert g H.
    induction l as [|c l IH]; intros g H; simpl; [exact H|].
    apply IH. by apply ProcessAsyncTimer_consistent.
Qed.

Lemma route_timer_consistent r g :
  registry_consistent g -> registry_consistent (route_timer r g).
Proof.
  intros H. unfold route_timer.
  pose proof (GetOrCreateTrack_consistent (GpuId (ti_timeline_hash r)) g H) as Hgpu.
  pose proof (GetOrCreateTrack_consistent (ThreadId (ti_thread_id r)) g H) as Hth.
  simpl in Hgpu, Hth.
  destruct (ti_type r);
    first [ eapply same_shape_consistent; [|exact Hgpu]; shape
          | eapply same_shape_consistent; [|exact Hth]; shape ].
Qed.

Lemma ProcessTimer_consistent app r f g :
  registry_consistent g -> registry_consistent (ProcessTimer app r f g).
Proof.
  intros H. rewrite ProcessTimer_stages.
  eapply same_shape_consistent; [|apply route_timer_consistent, orbit_stage_consistent,
    raise_capture_max_consistent, H].
  unfold NeedsUpdate. shape.
Qed.

Lemma Clear_tracks g0 : tracks_ (Clear g0) = [SchedulerId; ThreadId kAllThreadsFakeTid].
Proof. unfold_Clear. reflexivity. Qed.

Lemma Clear_scheduler_track g0 : scheduler_track_ (Clear g0) = Some new_track.
Proof. unfold_Clear. reflexivity. Qed.

Lemma Clear_registries g0 :
  gpu_tracks_ (Clear g0) = ∅ /\ graph_tracks_ (Clear g0) = ∅
  /\ async_tracks_ (Clear g0) = ∅ /\ thread_count_map_ (Clear g0) = ∅.
Proof. unfold_Clear. by repeat split. Qed.

Lemma not_in_cleared_tracks id :
  id <> SchedulerId -> id <> ThreadId kAllThreadsFakeTid ->
  id ∉ [SchedulerId; ThreadId kAllThreadsFakeTid].
Proof.
  intros H1 H2 Hin. apply elem_of_cons in Hin as [?|Hin]; [done|].
  by apply list_elem_of_singleton in Hin.
Qed.

Lemma Clear_consistent g0 : registry_consistent (Clear g0).
Proof.
  unfold registry_consistent. rewrite Clear_tracks. split.
  - apply NoDup_cons. split; [|apply NoDup_singleton].
    intros H. apply list_elem_of_singleton in H. discriminate.
  - destruct (Clear_registries g0) as (Hgpu & Hgraph & Hasync & _).
    intros [|tid|h|n|n]; cbn [get_track];
      rewrite ?Clear_scheduler_track, ?Clear_thread_tracks, ?Hgpu, ?Hgraph, ?Hasync,
        ?lookup_empty.
    + split; [eauto|]. intros _. apply list_elem_of_here.
    + destruct (decide (tid = kAllThreadsFakeTid)) as [->|Hne].
      * rewrite lookup_insert_eq. split; [eauto|]. intros _.
        apply list_elem_of_further, list_elem_of_here.
      * rewrite lookup_insert_ne, lookup_empty by congruence.
        split; [|intros [? ?]; discriminate].
        intros Hin. exfalso. revert Hin. apply not_in_cleared_tracks; congruence.
    + split; [|intros [? ?]; discriminate]. intros Hin. exfalso. revert Hin.
      by apply not_in_cleared_tracks.
    + split; [|intros [? ?]; discriminate]. intros Hin. exfalso. revert Hin.
      by apply not_in_cleared_tracks.
    + split; [|intros [? ?]; discriminate]. intros Hin. exfalso. revert Hin.
      by apply not_in_cleared_tracks.
Qed.

Lemma process_timers_consistent ds g :
  registry_consistent g -> registry_consistent (process_timers ds g).
Proof.
  revert g. induction ds as [|d ds IH]; intros g H; simpl; [exact H|].
  apply IH. by apply ProcessTimer_consistent.
Qed.

(** X2. The list of all tracks stays in step with the registries: after
    [Clear], and after any run of [ProcessTimer] calls that follows it, every
    registered track is listed exactly once and nothing else is listed; and
    [ProcessTimer] keeps this from any engine in which it holds. *)
Theorem registry_stays_consistent (g0 g : TimeGraph) (ds : list Delivery) (app : App)
    (r : TimerInfo) (f : option FunctionInfo) :
  registry_consistent (process_timers ds (Clear g0))
  /\ (registry_consistent g -> registry_consistent (ProcessTimer app r f g)).
Proof.
  split.
  - apply process_timers_consistent, Clear_consistent.
  - apply ProcessTimer_consistent.
Qed.

(** ** Where a record goes *)

Lemma track_timers_GetOrCreateTrack id id' g :
  track_timers (GetOrCreateTrack id g) id' = track_timers g id'.
Proof.
  unfold track_timers.
  destruct (decide (is_Some (get_track g id))) as [H|H].
  { by rewrite GetOrCreateTrack_present. }
  destruct (decide (id' = id)) as [->|Hne].
  2: { by rewrite get_track_GetOrCreateTrack_ne. }
  assert (Hnone : get_track g id = None).
  { destruct (get_track g id); [exfalso; apply H; eauto|reflexivity]. }
  rewrite Hnone. clear H.
  destruct id; simpl in *;
    unfold GetOrCreateSchedulerTrack, GetOrCreateThreadTrack, GetOrCreateGpuTrack,
      GetOrCreateGraphTrack, GetOrCreateAsyncTrack; rewrite Hnone; simpl;
    by rewrite ?lookup_insert_eq.
Qed.

Lemma GetOrCreateTrack_scheduler id g :
  is_Some (scheduler_track_ g) -> is_Some (scheduler_track_ (GetOrCreateTrack id g)).
Proof.
  intros H. destruct (decide (id = SchedulerId)) as [->|Hne].
  - apply (get_track_GetOrCreateTrack_eq SchedulerId).
  - change (is_Some (get_track (GetOrCreateTrack id g) SchedulerId)).
    by rewrite get_track_GetOrCreateTrack_ne.
Qed.

Lemma timers_of_alter_OnTimer {K} `{Countable K} (m : gmap K Track) k k' r :
  is_Some (m !! k) ->
  timers_of (alter (OnTimer r) k m !! k')
  = timers_of (m !! k') ++ (if decide (k' = k) then [r] else []).
Proof.
  intros [t Ht]. destruct (decide (k' = k)) as [->|Hne].
  - by rewrite lookup_alter_eq, Ht.
  - rewrite lookup_alter_ne by congruence. by rewrite app_nil_r.
Qed.

Lemma timers_of_alter_SetColor {K} `{Countable K} (m : gmap K Track) k k' c :
  timers_of (alter (SetColor c) k m !! k') = timers_of (m !! k').
Proof.
  destruct (decide (k' = k)) as [->|Hne].
  - rewrite lookup_alter_eq. by destruct (m !! k).
  - by rewrite lookup_alter_ne by congruence.
Qed.

Lemma track_timers_alt g id : track_timers g id = timers_of (get_track g id).
Proof. reflexivity. Qed.

Lemma route_timer_appended r g id :
  is_Some (scheduler_track_ g) ->
  track_timers (route_timer r g) id
  = track_timers g id ++ (if decide (id = destination r) then [r] else []).
Proof.
  intros Hsched.
  pose proof (track_timers_GetOrCreateTrack (GpuId (ti_timeline_hash r)) id g) as Hgpu.
  pose proof (track_timers_GetOrCreateTrack (ThreadId (ti_thread_id r)) id g) as Hth.
  pose proof (get_track_GetOrCreateTrack_eq (GpuId (ti_timeline_hash r)) g) as Sgpu.
  pose proof (get_track_GetOrCreateTrack_eq (ThreadId (ti_thread_id r)) g) as Sth.
  pose proof (GetOrCreateTrack_scheduler (ThreadId (ti_thread_id r)) g Hsched) as Ssch.
  cbn [GetOrCreateTrack get_track] in *.
  unfold route_timer, destination.
  destruct (ti_type r);
    [rewrite <- Hth|rewrite <- Hth|rewrite <- Hgpu|rewrite <- Hth ..]; clear Hgpu Hth;
    rewrite !track_timers_alt; destruct id as [|tid|h|n|n];
    cbn [get_track scheduler_track_ thread_tracks_ gpu_tracks_ graph_tracks_
         async_tracks_ set_scheduler_track_ set_thread_tracks_ set_gpu_tracks_
         set_cores_seen_ set_thread_count_map_];
    try (rewrite timers_of_alter_OnTimer by (rewrite ?is_Some_alter; assumption));
    rewrite ?timers_of_alter_SetColor;
    repeat case_decide; try congruence; rewrite ?app_nil_r; try reflexivity.
  all: destruct Ssch as [s Hs]; rewrite Hs; reflexivity.
Qed.

Lemma timers_of_alter_AddValue {K} `{Countable K} (m : gmap K Track) k k' s :
  timers_of (alter (AddValue s) k m !! k') = timers_of (m !! k').
Proof.
  destruct (decide (k' = k)) as [->|Hne].
  - rewrite lookup_alter_eq. by destruct (m !! k).
  - by rewrite lookup_alter_ne by congruence.
Qed.

Lemma ProcessValueTrackingTimer_track_timers app r g id :
  track_timers (ProcessValueTrackingTimer app r g) id = track_timers g id.
Proof.
  unfold ProcessValueTrackingTimer.
  pose proof (track_timers_GetOrCreateTrack
                (GraphId (ev_name (ApiEventFromTimerInfo app r))) id g) as Hg.
  cbn [GetOrCreateTrack] in Hg.
  destruct (ev_type (ApiEventFromTimerInfo app r)); try reflexivity; try exact Hg;
    rewrite <- Hg, !track_timers_alt; destruct id;
    cbn [get_track scheduler_track_ thread_tracks_ gpu_tracks_ graph_tracks_
         async_tracks_ set_graph_tracks_];
    by rewrite ?timers_of_alter_AddValue.
Qed.

Lemma ProcessAsyncTimer_track_timers name r' g id :
  is_async_id id = false ->
  track_timers (ProcessAsyncTimer name r' g) id = track_timers g id.
Proof.
  intros Hid. unfold ProcessAsyncTimer.
  rewrite <- (track_timers_GetOrCreateTrack (AsyncId name) id g).
  cbn [GetOrCreateTrack]. by destruct id.
Qed.

Lemma orbit_stage_track_timers app r f g id :
  is_async_id id = false \/ is_async_function f = false ->
  track_timers (orbit_function_stage app r f g) id = track_timers g id.
Proof.
  intros Hor. unfold orbit_function_stage. destruct f as [[n ty]|]; [|reflexivity].
  destruct ty; simpl in *; try reflexivity.
  - apply ProcessValueTrackingTimer_track_timers.
  - destruct Hor as [Hid|?]; [|discriminate].
    apply (foldl_invariant (fun g => track_timers g id)).
    intros a b. by apply ProcessAsyncTimer_track_timers.
  - destruct Hor as [Hid|?]; [|discriminate].
    apply (foldl_invariant (fun g => track_timers g id)).
    intros a b. by apply ProcessAsyncTimer_track_timers.
Qed.

Lemma raise_capture_max_track_timers r g id :
  track_timers (raise_capture_max r g) id = track_timers g id.
Proof. unfold raise_capture_max. destruct (_ <? _); [|reflexivity]. by destruct id. Qed.

Lemma ProcessTimer_scheduler_present app r f g :
  is_Some (scheduler_track_ g) -> is_Some (scheduler_track_ (ProcessTimer app r f g)).
Proof.
  intros H. rewrite ProcessTimer_stages.
  assert (H2 : is_Some (scheduler_track_
                          (orbit_function_stage app r f (raise_capture_max r g)))).
  { rewrite orbit_stage_scheduler_track. by rewrite raise_capture_max_frame. }
  revert H2. generalize (orbit_function_stage app r f (raise_capture_max r g)).
  intros g2 H2. unfold route_timer.
  pose proof (GetOrCreateTrack_scheduler (ThreadId (ti_thread_id r)) g2 H2) as Hth.
  pose proof (GetOrCreateTrack_scheduler (GpuId (ti_timeline_hash r)) g2 H2) as Hgpu.
  cbn [GetOrCreateTrack] in *.
  destruct (ti_type r); cbn; rewrite ?fmap_is_Some; assumption.
Qed.

Lemma ProcessTimer_appended app r f g id :
  is_Some (scheduler_track_ g) ->
  is_async_id id = false \/ is_async_function f = false ->
  track_timers (ProcessTimer app r f g) id
  = track_timers g id ++ (if decide (id = destination r) then [r] else []).
Proof.
  intros Hsched Hor. rewrite ProcessTimer_stages.
  transitivity (track_timers
                  (route_timer r (orbit_function_stage app r f (raise_capture_max r g))) id).
  { by destruct id. }
  rewrite route_timer_appended.
  - by rewrite orbit_stage_track_timers, raise_capture_max_track_timers.
  - rewrite orbit_stage_scheduler_track. by rewrite raise_capture_max_frame.
Qed.

(** X3. [ProcessTimer] appends a record to exactly one track: the GPU track
    of its timeline for GPU activity, the scheduler track for core activity,
    the thread track of its thread for any other kind. Every other
    scheduler, thread, GPU or graph track holds the records it held before;
    so do the async tracks, unless the record comes with an async start or
    stop function. *)
Theorem record_goes_to_one_track (app : App) (g : TimeGraph) (r : TimerInfo)
    (f : option FunctionInfo) (id : TrackId) :
  is_Some (scheduler_track_ g) ->
  is_async_id id = false \/ is_async_function f = false ->
  track_timers (ProcessTimer app r f g) (destination r)
  = track_timers g (destination r) ++ [r]
  /\ (id <> destination r -> track_timers (ProcessTimer app r f g) id = track_timers g id).
Proof.
  intros Hsched Hor. split.
  - rewrite ProcessTimer_appended; [|exact Hsched|].
    + by rewrite decide_True.
    + left. unfold destination. by destruct (ti_type r).
  - intros Hne. rewrite ProcessTimer_appended by assumption.
    by rewrite decide_False, app_nil_r.
Qed.

Lemma record_goes_to_one_track_witness :
  track_timers
    (ProcessTimer idle_app (mkTimerInfo 50 90 3 0 kCoreActivity 2 0 0) None new_TimeGraph)
    SchedulerId
  = track_timers new_TimeGraph SchedulerId ++ [mkTimerInfo 50 90 3 0 kCoreActivity 2 0 0].
Proof.
  assert (Hs : is_Some (scheduler_track_ new_TimeGraph)) by (vm_compute; eauto).
  exact (proj1 (record_goes_to_one_track idle_app new_TimeGraph
                  (mkTimerInfo 50 90 3 0 kCoreActivity 2 0 0) None SchedulerId Hs
                  (or_introl eq_refl))).
Defined.

Lemma process_timers_scheduler_present ds g :
  is_Some (scheduler_track_ g) -> is_Some (scheduler_track_ (process_timers ds g)).
Proof.
  revert g. induction ds as [|d ds IH]; intros g H; simpl; [exact H|].
  apply IH. by apply ProcessTimer_scheduler_present.
Qed.



Lemma Clear_track_timers g0 id : track_timers (Clear g0) id = [].
Proof.
  destruct (Clear_registries g0) as (Hgpu & Hgraph & Hasync & _).
  unfold track_timers. destruct id as [|tid|h|n|n]; cbn [get_track];
    rewrite ?Clear_scheduler_track, ?Clear_thread_tracks, ?Hgpu, ?Hgraph, ?Hasync,
      ?lookup_empty; try reflexivity.
  destruct (decide (tid = kAllThreadsFakeTid)) as [->|Hne].
  - by rewrite lookup_insert_eq.
  - by rewrite lookup_insert_ne, lookup_empty.
Qed.



(** ** Cores seen and per-thread counts *)

Lemma ProcessTimer_cores_seen app r f g :
  cores_seen_ (ProcessTimer app r f g)
  = if is_core_activity r then {[ti_processor r]} ∪ cores_seen_ g else cores_seen_ g.
Proof.
  rewrite ProcessTimer_stages.
  transitivity (if is_core_activity r
                then {[ti_processor r]}
                     ∪ cores_seen_ (orbit_function_stage app r f (raise_capture_max r g))
                else cores_seen_ (orbit_function_stage app r f (raise_capture_max r g))).
  - generalize (orbit_function_stage app r f (raise_capture_max r g)). intros g2.
    unfold route_timer, is_core_activity. destruct (ti_type r); frame.
  - rewrite orbit_stage_cores_seen. by rewrite raise_capture_max_frame.
Qed.

Lemma cores_of_cons d ds :
  cores_of (d :: ds)
  = (if is_core_activity (snd (fst d)) then {[ti_processor (snd (fst d))]} else ∅)
    ∪ cores_of ds.
Proof.
  unfold cores_of. cbn [fmap list_fmap]. rewrite filter_cons.
  case_decide as Hc; rewrite Hc || (apply not_true_is_false in Hc; rewrite Hc).
  - reflexivity.
  - by rewrite union_empty_l_L.
Qed.

Lemma process_timers_cores_seen ds : forall g,
  cores_seen_ (process_timers ds g) = cores_seen_ g ∪ cores_of ds.
Proof.
  induction ds as [|d ds IH]; intros g.
  - simpl. unfold cores_of. simpl. by rewrite union_empty_r_L.
  - change (process_timers (d :: ds) g) with (process_timers ds (deliver g d)).
    rewrite IH, cores_of_cons. unfold deliver. rewrite ProcessTimer_cores_seen.
    destruct (is_core_activity (snd (fst d))).
    + by rewrite (union_comm_L {[ti_processor (snd (fst d))]}), <- union_assoc_L.
    + by rewrite union_empty_l_L.
Qed.

(** X5. The cores seen are exactly the cores of the core-activity records
    delivered since the last [Clear]; [GetNumCores] counts them. Records of
    any other kind never add a core. *)
Theorem cores_seen_are_the_cores_delivered (g0 : TimeGraph) (ds : list Delivery) :
  cores_seen_ (process_timers ds (Clear g0)) = cores_of ds
  /\ GetNumCores (process_timers ds (Clear g0)) = wrap32 (Z.of_nat (size (cores_of ds)))
  /\ (forall c, c ∈ cores_of ds <->
        exists d, d ∈ ds /\ ti_type (snd (fst d)) = kCoreActivity
                  /\ ti_processor (snd (fst d)) = c).
Proof.
  assert (H : cores_seen_ (process_timers ds (Clear g0)) = cores_of ds).
  { rewrite process_timers_cores_seen, Clear_cores_seen. by rewrite union_empty_l_L. }
  split; [exact H|]. split; [unfold GetNumCores; by rewrite H|].
  intros c. unfold cores_of. rewrite elem_of_list_to_set, list_elem_of_fmap.
  split.
  - intros (r & -> & Hr). apply list_elem_of_filter in Hr as [Hcore Hr].
    apply list_elem_of_fmap in Hr as (p & -> & Hp).
    apply list_elem_of_fmap in Hp as (d & -> & Hd).
    exists d. split; [exact Hd|]. split; [|reflexivity].
    unfold is_core_activity in Hcore. by destruct (ti_type (snd (fst d))).
  - intros (d & Hd & Hty & <-). exists (snd (fst d)). split; [reflexivity|].
    apply list_elem_of_filter. split.
    + unfold is_core_activity. by rewrite Hty.
    + apply list_elem_of_fmap. exists (fst d). split; [reflexivity|].
      apply list_elem_of_fmap. by exists d.
Qed.

Lemma ProcessTimer_thread_count_map app r f g :
  thread_count_map_ (ProcessTimer app r f g)
  = match destination r with
    | ThreadId tid =>
        <[tid := wrap32 (default 0 (thread_count_map_ g !! tid) + 1)]> (thread_count_map_ g)
    | _ => thread_count_map_ g
    end.
Proof.
  rewrite ProcessTimer_stages.
  assert (H : thread_count_map_ (orbit_function_stage app r f (raise_capture_max r g))
              = thread_count_map_ g).
  { rewrite orbit_stage_thread_count_map. by rewrite raise_capture_max_frame. }
  rewrite <- H. generalize (orbit_function_stage app r f (raise_capture_max r g)).
  intros g2. unfold route_timer, destination. destruct (ti_type r); frame.
Qed.

Lemma wrap32_succ a : wrap32 (wrap32 a + 1) = wrap32 (a + 1).
Proof. unfold wrap32. by rewrite Z.add_mod_idemp_l. Qed.

Lemma thread_timers_alt g tid : thread_timers g tid = track_timers g (ThreadId tid).
Proof. reflexivity. Qed.

Lemma ProcessTimer_counts_match app r f g :
  is_Some (scheduler_track_ g) -> counts_match g ->
  counts_match (ProcessTimer app r f g).
Proof.
  intros Hs Hinv tid. specialize (Hinv tid).
  rewrite thread_timers_alt in Hinv |- *.
  rewrite ProcessTimer_appended by auto.
  rewrite ProcessTimer_thread_count_map.
  destruct (decide (ThreadId tid = destination r)) as [E|Hne].
  - rewrite <- E. rewrite lookup_insert_eq, Hinv.
    destruct (track_timers g (ThreadId tid)) as [|x l]; simpl; [reflexivity|].
    rewrite wrap32_succ, length_app. simpl. do 2 f_equal. lia.
  - rewrite app_nil_r.
    destruct (destination r) as [|tid0|h|n|n]; try exact Hinv.
    rewrite lookup_insert_ne by congruence. exact Hinv.
Qed.

Lemma Clear_counts_match g0 : counts_match (Clear g0).
Proof.
  intros tid. destruct (Clear_registries g0) as (_ & _ & _ & ->).
  rewrite lookup_empty.
  by rewrite thread_timers_alt, Clear_track_timers.
Qed.

Lemma process_timers_counts_match ds : forall g,
  is_Some (scheduler_track_ g) -> counts_match g -> counts_match (process_timers ds g).
Proof.
  induction ds as [|d ds IH]; intros g Hs Hinv; [exact Hinv|].
  change (process_timers (d :: ds) g) with (process_timers ds (deliver g d)).
  apply IH; [by apply ProcessTimer_scheduler_present|by apply ProcessTimer_counts_match].
Qed.

(** X6. The per-thread event count always agrees with the thread's track:
    after [Clear] and any run of [ProcessTimer] calls, a thread has an entry
    in [thread_count_map_] exactly when its track holds a record, and the
    entry is the number of records of the track, in 32 bits. So the threads
    ranked first by [SortTracks] are exactly those with a non-empty track. *)
Theorem thread_counts_match_tracks (g0 : TimeGraph) (ds : list Delivery) (tid : Z) :
  let g := process_timers ds (Clear g0) in
  counts_match g
  /\ (is_Some (thread_count_map_ g !! tid) <-> thread_is_empty g tid = false)
  /\ (forall count, thread_count_map_ g !! tid = Some count ->
        count = wrap32 (Z.of_nat (length (thread_timers g tid)))).
Proof.
  intros g.
  assert (Hinv : counts_match g).
  { apply process_timers_counts_match; [|apply Clear_counts_match].
    rewrite Clear_scheduler_track. eauto. }
  split; [exact Hinv|]. specialize (Hinv tid).
  assert (Hemp : thread_is_empty g tid
                 = match thread_timers g tid with [] => true | _ => false end).
  { unfold thread_is_empty, thread_timers, IsEmpty.
    by destruct (thread_tracks_ g !! tid). }
  split.
  - rewrite Hinv, Hemp. destruct (thread_timers g tid); split;
      try done; try (intros [? ?]; discriminate); eauto.
  - intros count Hc. rewrite Hinv in Hc.
    destruct (thread_timers g tid); [discriminate|]. by injection Hc as <-.
Qed.

(** ** No record is lost: the total count *)

Lemma wrap32_add_l a b : wrap32 (wrap32 a + b) = wrap32 (a + b).
Proof. unfold wrap32. by rewrite Z.add_mod_idemp_l. Qed.

Lemma TimeGraph_GetNumTimers_total g :
  TimeGraph_GetNumTimers g = wrap32 (Z.of_nat (total_timers g)).
Proof.
  unfold TimeGraph_GetNumTimers, total_timers.
  assert (H : forall l a,
    foldl (fun numTimers id =>
             match get_track g id with
             | Some track => wrap32 (numTimers + GetNumTimers track)
             | None => numTimers
             end) (wrap32 a) l
    = wrap32 (a + Z.of_nat (sum_list_with (fun id => length (track_timers g id)) l))).
  { induction l as [|id l IH]; intros a; simpl.
    - by rewrite Z.add_0_r.
    - unfold track_timers at 1. destruct (get_track g id) as [t|].
      + rewrite wrap32_add_l, IH. unfold GetNumTimers. f_equal. lia.
      + rewrite IH. simpl. f_equal. }
  exact (H (tracks_ g) 0).
Qed.

Lemma extends_refl g : extends g g.
Proof. exists []. by rewrite app_nil_r. Qed.

Lemma extends_trans g g' g'' : extends g g' -> extends g' g'' -> extends g g''.
Proof.
  intros [e1 H1] [e2 H2]. exists (e1 ++ e2). by rewrite H2, H1, app_assoc.
Qed.

Lemma extends_same_tracks g g' : tracks_ g' = tracks_ g -> extends g g'.
Proof. intros H. exists []. by rewrite app_nil_r. Qed.

Lemma GetOrCreateTrack_extends id g : extends g (GetOrCreateTrack id g).
Proof.
  unfold extends. rewrite tracks_GetOrCreateTrack. case_decide.
  - exists []. by rewrite app_nil_r.
  - by exists [id].
Qed.

Lemma ProcessAsyncTimer_extends name r g : extends g (ProcessAsyncTimer name r g).
Proof.
  unfold ProcessAsyncTimer.
  eapply extends_trans; [apply (GetOrCreateTrack_extends (AsyncId name))|].
  by apply extends_same_tracks.
Qed.

Lemma orbit_stage_extends app r f g : extends g (orbit_function_stage app r f g).
Proof.
  unfold orbit_function_stage. destruct f as [[n ty]|]; [|apply extends_refl].
  destruct ty; simpl; try apply extends_refl.
  - unfold ProcessValueTrackingTimer.
    pose proof (GetOrCreateTrack_extends
                  (GraphId (ev_name (ApiEventFromTimerInfo app r))) g) as Hg.
    cbn [GetOrCreateTrack] in Hg.
    destruct (ev_type (ApiEventFromTimerInfo app r)); try apply extends_refl;
      try exact Hg; (eapply extends_trans; [exact Hg|by apply extends_same_tracks]).
  - generalize (AsyncTimerListenerCalls app r). intros l. revert g.
    induction l as [|c l IH]; intros g; simpl; [apply extends_refl|].
    eapply extends_trans; [apply ProcessAsyncTimer_extends|apply IH].
  - generalize (AsyncTimerListenerCalls app r). intros l. revert g.
    induction l as [|c l IH]; intros g; simpl; [apply extends_refl|].
    eapply extends_trans; [apply ProcessAsyncTimer_extends|apply IH].
Qed.

Lemma route_timer_extends r g : extends g (route_timer r g).
Proof.
  pose proof (GetOrCreateTrack_extends (GpuId (ti_timeline_hash r)) g) as Hgpu.
  pose proof (GetOrCreateTrack_extends (ThreadId (ti_thread_id r)) g) as Hth.
  cbn [GetOrCreateTrack] in *. unfold route_timer.
  destruct (ti_type r);
    first [ eapply extends_trans; [exact Hgpu|by apply extends_same_tracks]
          | eapply extends_trans; [exact Hth|by apply extends_same_tracks] ].
Qed.

Lemma ProcessTimer_extends app r f g : extends g (ProcessTimer app r f g).
Proof.
  rewrite ProcessTimer_stages.
  eapply extends_trans; [|by apply extends_same_tracks].
  eapply extends_trans; [|apply route_timer_extends].
  eapply extends_trans; [|apply orbit_stage_extends].
  apply extends_same_tracks. unfold raise_capture_max. by destruct (_ <? _).
Qed.

Lemma sum_list_with_add {A} (f h : A -> nat) (l : list A) :
  sum_list_with (fun x => (f x + h x)%nat) l
  = (sum_list_with f l + sum_list_with h l)%nat.
Proof. induction l as [|x l IH]; simpl; [reflexivity|]. rewrite IH. lia. Qed.

Lemma sum_list_with_pointwise {A} (f h : A -> nat) (l : list A) :
  (forall x, f x = h x) -> sum_list_with f l = sum_list_with h l.
Proof. intros H. induction l as [|x l IH]; simpl; [reflexivity|]. by rewrite H, IH. Qed.

Lemma sum_list_with_zero {A} (f : A -> nat) (l : list A) :
  (forall x, x ∈ l -> f x = 0%nat) -> sum_list_with f l = 0%nat.
Proof.
  induction l as [|x l IH]; intros H; simpl; [reflexivity|].
  rewrite H by apply list_elem_of_here. rewrite IH; [reflexivity|].
  intros y Hy. apply H. by apply list_elem_of_further.
Qed.

Lemma sum_indicator (dest : TrackId) (l : list TrackId) :
  NoDup l -> dest ∈ l ->
  sum_list_with (fun id => if decide (id = dest) then 1%nat else 0%nat) l = 1%nat.
Proof.
  induction l as [|x l IH]; intros Hnd Hin; [by apply elem_of_nil in Hin|].
  apply NoDup_cons in Hnd as [Hx Hnd]. simpl.
  destruct (decide (x = dest)) as [->|Hne].
  - rewrite sum_list_with_zero; [reflexivity|].
    intros y Hy. rewrite decide_False; [reflexivity|]. intros ->. by apply Hx.
  - apply elem_of_cons in Hin as [?|Hin]; [congruence|]. by rewrite IH.
Qed.

Lemma ProcessTimer_total app r f g :
  registry_consistent g -> is_Some (scheduler_track_ g) ->
  is_async_function f = false ->
  total_timers (ProcessTimer app r f g) = S (total_timers g).
Proof.
  intros Hc Hs Hf.
  pose proof (ProcessTimer_consistent app r f g Hc) as [Hnd' Hiff'].
  destruct (ProcessTimer_extends app r f g) as [extra Hext].
  unfold total_timers.
  rewrite (sum_list_with_pointwise _
             (fun id => (length (track_timers g id)
                         + (if decide (id = destination r) then 1 else 0))%nat)).
  2: { intros id. rewrite ProcessTimer_appended by auto. rewrite length_app.
       by case_decide. }
  rewrite sum_list_with_add, sum_indicator.
  - rewrite Hext, sum_list_with_app. rewrite (sum_list_with_zero _ extra); [lia|].
    intros id Hid. rewrite Hext in Hnd'. apply NoDup_app in Hnd' as (_ & Hdisj & _).
    destruct Hc as [_ Hiff]. unfold track_timers.
    destruct (get_track g id) eqn:E; [|reflexivity].
    exfalso. apply (Hdisj id); [|exact Hid]. apply Hiff. eauto.
  - exact Hnd'.
  - apply Hiff'. pose proof (ProcessTimer_appended app r f g (destination r) Hs
                               (or_intror Hf)) as Ha.
    rewrite decide_True in Ha by done. unfold track_timers in Ha.
    destruct (get_track (ProcessTimer app r f g) (destination r)); [eauto|].
    exfalso. destruct (get_track g (destination r)) as [t|];
      [destruct (timers_ t)|]; discriminate Ha.
Qed.

Lemma process_timers_total ds : forall g,
  registry_consistent g -> is_Some (scheduler_track_ g) ->
  Forall (fun d : Delivery => is_async_function (snd d) = false) ds ->
  total_timers (process_timers ds g) = (total_timers g + length ds)%nat.
Proof.
  induction ds as [|d ds IH]; intros g Hc Hs Hf; simpl; [lia|].
  apply Forall_cons in Hf as [Hd Hf].
  rewrite IH; [|by apply ProcessTimer_consistent|by apply ProcessTimer_scheduler_present|done].
  unfold deliver. rewrite ProcessTimer_total by assumption. lia.
Qed.

(** X7. No record is lost or counted twice. After [Clear] and a run of
    [ProcessTimer] calls, none of which carries an async start or stop
    function, [GetNumTimers] over all tracks is the number of records
    delivered, in 32 bits; each single call raises the total by one. *)
Theorem no_record_is_lost (g0 : TimeGraph) (ds : list Delivery) :
  Forall (fun d : Delivery => is_async_function (snd d) = false) ds ->
  TimeGraph_GetNumTimers (process_timers ds (Clear g0))
  = wrap32 (Z.of_nat (length ds)).
Proof.
  intros Hf. rewrite TimeGraph_GetNumTimers_total, process_timers_total.
  - replace (total_timers (Clear g0)) with 0%nat; [reflexivity|].
    unfold total_timers. symmetry. apply sum_list_with_zero.
    intros id _. by rewrite Clear_track_timers.
  - apply Clear_consistent.
  - rewrite Clear_scheduler_track. eauto.
  - exact Hf.
Qed.

Lemma no_record_is_lost_witness :
  TimeGraph_GetNumTimers
    (process_timers
       [ (idle_app, mkTimerInfo 100 200 7 0 kFunctionSpan 0 0 0, None);
         (idle_app, mkTimerInfo 50 90 3 0 kCoreActivity 2 0 0, None);
         (idle_app, mkTimerInfo 10 20 0 0 kGpuActivity 0 42 0, None) ]
       (Clear new_TimeGraph))
  = wrap32 3.
Proof.
  apply (no_record_is_lost new_TimeGraph
           [ (idle_app, mkTimerInfo 100 200 7 0 kFunctionSpan 0 0 0, None);
             (idle_app, mkTimerInfo 50 90 3 0 kCoreActivity 2 0 0, None);
             (idle_app, mkTimerInfo 10 20 0 0 kGpuActivity 0 42 0, None) ]).
  repeat constructor.
Defined.


(** ** What ingestion leaves alone, and what [Clear] forgets *)








(** ** The capture extent, from the tracks *)

(** X9. What [UpdateCaptureMinMaxTimestamps] computes when the capture has no
    sampled callstacks. The capture minimum becomes the smallest first-start
    tick among the listed tracks that hold a record and whose first start is
    after tick 0 (a track starting at tick 0 is skipped), or stays at the
    largest 64-bit value when there is none; it is never 0. The capture
    maximum is not touched. The call reports data exactly when such a track
    exists with a first start below the largest 64-bit value. *)
Theorem capture_extent_from_tracks (app : App) (g : TimeGraph) :
  (0 <? GetCallstackEventsCount (GetCallstackData app)) = false ->
  let g' := fst (UpdateCaptureMinMaxTimestamps app g) in
  0 < capture_min_timestamp_ g' <= kUint64Max
  /\ capture_max_timestamp_ g' = capture_max_timestamp_ g
  /\ (forall id m, contributes g id m -> capture_min_timestamp_ g' <= m)
  /\ (capture_min_timestamp_ g' = kUint64Max
      \/ exists id, contributes g id (capture_min_timestamp_ g'))
  /\ (snd (UpdateCaptureMinMaxTimestamps app g) = true
      <-> exists id m, contributes g id m /\ m < kUint64Max).
Proof.
  intros Hcs g'.
  destruct (UpdateCaptureMinMaxTimestamps_extent app g) as (Hmin & Hmax & Hflag).
  fold g' in Hmin, Hmax, Hflag. rewrite Hcs in Hmin, Hmax.
  destruct (scan_min_time_spec g (tracks_ g) kUint64Max) as (Hle & Hall & Hex).
  rewrite <- Hmin in Hle, Hall, Hex.
  assert (Hcontr : forall id m, contributes g id m -> capture_min_timestamp_ g' <= m).
  { intros id m (Hin & track & Hget & Hne & <- & Hpos). by apply (Hall id track). }
  assert (Hattained : capture_min_timestamp_ g' = kUint64Max
                      \/ exists id, contributes g id (capture_min_timestamp_ g')).
  { destruct Hex as [?|(id & track & Hin & Hget & Hne & Hm & Hpos)]; [by left|].
    right. exists id. split; [exact Hin|]. by exists track. }
  split; [|split; [exact Hmax|split; [exact Hcontr|split; [exact Hattained|]]]].
  - destruct Hattained as [->|(id & _ & track & _ & _ & _ & Hpos)];
      [unfold kUint64Max; lia|lia].
  - rewrite Hflag, negb_true_iff, Z.eqb_neq. split.
    + intros Hne. destruct Hattained as [?|[id Hc]]; [done|].
      exists id, (capture_min_timestamp_ g'). split; [exact Hc|lia].
    + intros (id & m & Hc & Hlt). specialize (Hcontr id m Hc). lia.
Qed.

Lemma capture_extent_from_tracks_witness :
  capture_max_timestamp_ (fst (UpdateCaptureMinMaxTimestamps idle_app settled_graph))
  = capture_max_timestamp_ settled_graph.
Proof.
  apply (capture_extent_from_tracks idle_app settled_graph). reflexivity.
Defined.

